(** * taserver login server: dispatch loop, registries and login flow

    A shallow embedding of [login_server/loginserver.py] and
    [login_server/player/state/unauthenticated_state.py], followed by the
    properties of the dispatcher, the two registries, user-name validation,
    display-name selection and auth-code issuance.

    Conventions of the embedding:
    - a Python [str] is the list of its Unicode code points, [bytes] the list
      of its byte values;
    - a Python [int] is a [Z];
    - peers (players, game servers, auth-code requesters) are mutable objects
      shared between the registries, the messages and the player states: they
      live in a store indexed by object identity ([loc]), and registries and
      messages hold identities, not copies;
    - calls into collaborators outside the two modules (transport, logger,
      account store, social network) are recorded, in order, in a trace;
    - handlers are state transformers that either return or raise. *)

From Equations Require Import Equations.
From Stdlib Require Import ZArith String Ascii DecimalString.
From stdpp Require Import gmap list.

Open Scope Z_scope.

(** ** Python strings and bytes *)

Definition char := N.
Definition str := list char.
Definition bytes := list N.

(** A string literal of the source, as code points. *)
Definition lit (s : string) : str := map N_of_ascii (list_ascii_of_string s).

(** [len(s)] *)
Definition len (s : str) : Z := Z.of_nat (length s).

(** [s[:n]]: a negative bound counts from the end. *)
Definition slice_to (s : str) (n : Z) : str :=
  if n <? 0 then take (Z.to_nat (len s + n)) s else take (Z.to_nat n) s.

(** ['%d' % n] *)
Definition fmt_d (n : Z) : str := lit (NilZero.string_of_int (Z.to_int n)).

(** ['%02d' % n]: zero-padded on the left to a width of two. *)
Definition fmt_02d (n : Z) : str :=
  if n <? 0 then fmt_d n
  else if n <? 10 then lit "0" ++ fmt_d n
  else fmt_d n.

(** [s.encode('ascii')]; [None] stands for the [UnicodeError]. *)
Definition encode_ascii (s : str) : option bytes :=
  if forallb (fun c => c <? 128)%N s then Some s else None.

(** [s.encode('latin1')]; [None] stands for the [UnicodeError]. *)
Definition encode_latin1 (s : str) : option bytes :=
  if forallb (fun c => c <? 256)%N s then Some s else None.

(** [x in l] for a list of strings. *)
Definition in_list (x : str) (l : list str) : bool := bool_decide (x ∈ l).

(** [string.ascii_letters] and [string.digits] *)
Definition ascii_letters : str :=
  lit "abcdefghijklmnopqrstuvwxyzABCDEFGHIJKLMNOPQRSTUVWXYZ".
Definition digits : str := lit "0123456789".

(** ** Exceptions and results *)

(** The exception classes that the two modules raise or meet; all of them
    derive from [Exception]. *)
Inductive Exn :=
| AlreadyLoggedInError
| ProtocolViolationError
| AssertionError
| KeyError
| AttributeError
| IndexError
| UnicodeError
| ValueError
| OtherError (tag : Z).

Inductive result (A : Type) :=
| Ok (a : A)
| Raise (e : Exn).
Arguments Ok {A} a.
Arguments Raise {A} e.

(** ** [choose_display_name] *)

(** The [while] loop of [choose_display_name], entered with the current
    candidate and the current index.  [base] is
    [login_name[:max_name_length - len(prefix)]].  The index grows by one per
    iteration and the assertion stops it below 100. *)
Equations? name_loop (base : str) (names_in_use : list str)
    (display_name : str) (index : Z) : result str
    by wf (Z.to_nat (100 - index)) lt :=
  name_loop base names_in_use display_name index
    with in_list display_name names_in_use := {
    | false := Ok display_name
    | true with Equations.Prop.Logic.inspect (index + 1 <? 100) := {
      | exist _ true Hlt :=
          name_loop base names_in_use
            (lit "unv" ++ fmt_02d index ++ lit "-" ++ base) (index + 1)
      | exist _ false Hge := Raise AssertionError } }.
Proof. apply Z.ltb_lt in Hlt. lia. Qed.

Definition choose_display_name (login_name : str) (registered : bool)
    (names_in_use : list str) (max_name_length : Z) : result str :=
  if registered then Ok (slice_to login_name max_name_length)
  else
    let prefix := lit "unvrf-" in
    let base := slice_to login_name (max_name_length - len prefix) in
    name_loop base names_in_use (prefix ++ base) 2.

(** The candidates in the order the loop tries them: number 1 is the
    ["unvrf-"] name, number [k >= 2] the ["unv%02d-"] name of index [k]. *)
Definition candidate (base : str) (k : Z) : str :=
  if k <? 2 then lit "unvrf-" ++ base
  else lit "unv" ++ fmt_02d k ++ lit "-" ++ base.

(** ** [utils] *)

(** Modelled from the spec: [utils.first_unused_number_above(numbers, minimum)]
    is not part of the two modules.  The spec (Identity Allocator): "Given the
    set of currently-in-use integer keys and a floor value, returns the
    smallest integer >= floor not present in that set."  The search walks up
    from the floor; it needs at most one step per key in use. *)
Fixpoint first_unused_from (steps : nat) (used : gset Z) (n : Z) : Z :=
  match steps with
  | O => n
  | S steps' =>
      if bool_decide (n ∈ used) then first_unused_from steps' used (n + 1)
      else n
  end.

Definition first_unused_number_above (numbers : gset Z) (minimum : Z) : Z :=
  first_unused_from (size numbers) numbers minimum.

(** ** Peers *)

(** Identity of a peer object. *)
Definition loc := positive.

(** The states of the player state machine named in [loginserver.py]. *)
Inductive PlayerState :=
| UnauthenticatedState
| AuthenticatedState
| OfflineState.

Module Player.
Record t := mk {
  unique_id : Z;
  login_name : option str;
  password_hash : option bytes;
  display_name : option str;
  registered : bool;
  team : option Z;
  game_server : option loc;
  last_received_seq : option Z;
  state : PlayerState
}.

Definition set_unique_id (v : Z) (p : t) : t :=
  mk v (login_name p) (password_hash p) (display_name p) (registered p)
     (team p) (game_server p) (last_received_seq p) (state p).
Definition set_login_name (v : option str) (p : t) : t :=
  mk (unique_id p) v (password_hash p) (display_name p) (registered p)
     (team p) (game_server p) (last_received_seq p) (state p).
Definition set_password_hash (v : option bytes) (p : t) : t :=
  mk (unique_id p) (login_name p) v (display_name p) (registered p)
     (team p) (game_server p) (last_received_seq p) (state p).
Definition set_display_name (v : option str) (p : t) : t :=
  mk (unique_id p) (login_name p) (password_hash p) v (registered p)
     (team p) (game_server p) (last_received_seq p) (state p).
Definition set_registered (v : bool) (p : t) : t :=
  mk (unique_id p) (login_name p) (password_hash p) (display_name p) v
     (team p) (game_server p) (last_received_seq p) (state p).
Definition set_team (v : option Z) (p : t) : t :=
  mk (unique_id p) (login_name p) (password_hash p) (display_name p)
     (registered p) v (game_server p) (last_received_seq p) (state p).
Definition set_last_received_seq (v : option Z) (p : t) : t :=
  mk (unique_id p) (login_name p) (password_hash p) (display_name p)
     (registered p) (team p) (game_server p) v (state p).
Definition set_state (v : PlayerState) (p : t) : t :=
  mk (unique_id p) (login_name p) (password_hash p) (display_name p)
     (registered p) (team p) (game_server p) (last_received_seq p) v.
End Player.

Module GameServer.
Record t := mk {
  server_id : Z;
  match_id : Z;
  game_setting_mode : option Z;
  map_id : Z;
  be_score : Z;
  ds_score : Z
}.

Definition set_ids (sid mid : Z) (g : t) : t :=
  mk sid mid (game_setting_mode g) (map_id g) (be_score g) (ds_score g).
Definition set_game_setting_mode (v : option Z) (g : t) : t :=
  mk (server_id g) (match_id g) v (map_id g) (be_score g) (ds_score g).
Definition set_map_id (v : Z) (g : t) : t :=
  mk (server_id g) (match_id g) (game_setting_mode g) v (be_score g)
     (ds_score g).
Definition set_scores (be ds : Z) (g : t) : t :=
  mk (server_id g) (match_id g) (game_setting_mode g) (map_id g) be ds.
End GameServer.

(** What [isinstance] tells apart. *)
Inductive Peer :=
| PlayerObj (p : Player.t)
| GameServerObj (g : GameServer.t)
| AuthCodeRequesterObj.

(** An account record, as far as the login flow reads it. *)
Module Account.
Record t := mk {
  password_hash : option bytes;
  unique_id : Z
}.
End Account.

(** ** Messages *)

(** A request of a [LoginProtocolMessage], by packet class.  For [a003a] the
    two fields are what [findbytype(m0056)] and [findbytype(m0494)] return:
    the password hash ([content]) and the login name ([value]), when
    present. *)
Inductive Request :=
| a01bc
| a0033
| a003a (m0056 : option bytes) (m0494 : option str)
| other_request (ident : Z).

Definition ident (r : Request) : Z :=
  match r with
  | a01bc => 0x01bc
  | a0033 => 0x0033
  | a003a _ _ => 0x003a
  | other_request i => i
  end.

(** The message classes of the handler table, with the fields the embedded
    handlers read.  [UnknownMessage] is a message of any other class. *)
Inductive MessageBody :=
| AuthCodeRequestMessage (login_name : str)
| ExecuteCallbackMessage (callback_id : Z)
| HttpRequestMessage (path_info : str)
| PeerConnectedMessage
| PeerDisconnectedMessage
| LoginProtocolMessage (clientseq : Z) (requests : list Request)
| Launcher2LoginProtocolVersionMessage (version : str)
| Launcher2LoginAddressInfoMessage (external_ip internal_ip : option str)
| Launcher2LoginServerInfoMessage (description motd : str)
    (game_setting_mode : Z) (password_hash : option bytes)
| Launcher2LoginMapInfoMessage (map_id : Z)
| Launcher2LoginTeamInfoMessage (player_to_team_id : list (str * Z))
| Launcher2LoginScoreInfoMessage (be_score ds_score : Z)
| Launcher2LoginMatchTimeMessage (seconds_remaining : Z) (counting : bool)
| Launcher2LoginServerReadyMessage (port : option Z)
| Launcher2LoginMatchEndMessage
| UnknownMessage.

(** A queued message.  [peer] is [None] when the object has no [peer]
    attribute ([hasattr(message, 'peer')] is false). *)
Record Message := mkMessage {
  peer : option loc;
  body : MessageBody
}.

(** ** Calls into collaborators *)

Inductive Level := Info | Warning | Error.

Inductive LogEntry :=
| LogServerStarted
| LogDispatchException
| LogAuthcodeRefused (login_name reason : str)
| LogAuthcodeReturned (login_name authcode : str)
| LogAddedGameServer (server_id : Z)
| LogRemovedGameServer (server_id : Z)
| LogClientSent (player : loc) (idents : list Z)
| LogTeamInfoInvalid (server_id player_id : Z)
| LogLoginRejected (login_name : bytes) (reason : str)
| LogMapInfo
| LogMatchEnded (server_id : Z).

(** What is handed to a peer's [send]. *)
Inductive Payload :=
| Packets (ps : list Request)
| LoginRejected
| LoginAccepted (snapshot : Player.t)
| Text (s : str).

Inductive Effect :=
| Log (level : Level) (entry : LogEntry)
| ResetFirewall
| Send (to : loc) (data : Payload)
| Disconnect (who : loc) (exc : option Exn)
| ConnectToSocialNetwork (who : loc)
| ComplementAddressPair (who : loc)
| RemoveReceiver (who : loc)
| Load (who : loc)
| AddAccount (login_name authcode : str)
| Save.

(** ** Constants and collaborators that the two modules import *)

(** [Player.min_name_length], [Player.max_name_length], the allow-list behind
    [utils.is_valid_ascii_for_name], the builtin [int] on strings ([None]
    stands for the [ValueError]), and the account store with the two
    operations the login server uses besides [save]: lookup by login name
    ([in] and [[]]) and [add_account]. *)
Class Env := {
  min_name_length : Z;
  max_name_length : Z;
  allowed_name_byte : N -> bool;
  int : str -> option Z;
  Accounts : Type;
  accounts_get : Accounts -> str -> option Account.t;
  accounts_add_account : Accounts -> str -> str -> Accounts
}.

Section LoginServer.
Context `{env : Env}.

(** Modelled from the spec: [utils.is_valid_ascii_for_name(ascii_bytes)] is
    not part of the two modules.  The spec: the name "must be representable as
    a restricted ASCII charset (explicit allow-list, not full ASCII)": every
    byte is on the allow-list. *)
Definition is_valid_ascii_for_name (ascii_bytes : bytes) : bool :=
  forallb allowed_name_byte ascii_bytes.

(** [LoginServer.validate_username]; the result is the failure reason, or
    [None]. *)
Definition validate_username (username : str) : option str :=
  if len username <? min_name_length then
    Some (lit "User name is too short, min length is " ++ fmt_d min_name_length
            ++ lit " characters.")
  else if len username >? max_name_length then
    Some (lit "User name is too long, max length is " ++ fmt_d max_name_length
            ++ lit " characters.")
  else
    match encode_ascii username with
    | None => Some (lit "User name contains invalid (i.e. non-ascii) characters")
    | Some ascii_bytes =>
        if negb (is_valid_ascii_for_name ascii_bytes) then
          Some (lit "User name contains invalid characters")
        else None
    end.

(** Truth value of [validation_failure] in [if validation_failure:]. *)
Definition truthy (v : option str) : bool :=
  match v with
  | None => false
  | Some [] => false
  | Some (_ :: _) => true
  end.

(** ** The login server's state *)

(** [players] and [game_servers] are the two registries, [heap] the peer
    objects, [rand] and [rand_pos] the source of randomness behind
    [random.choice] (the raw draws and how many were consumed), [trace] the
    calls into collaborators so far, oldest first. *)
Record LoginServer := mkLoginServer {
  players : gmap Z loc;
  game_servers : gmap Z loc;
  heap : gmap loc Peer;
  accounts : Accounts;
  rand : nat -> nat;
  rand_pos : nat;
  trace : list Effect
}.

Definition set_players (v : gmap Z loc) (s : LoginServer) : LoginServer :=
  mkLoginServer v (game_servers s) (heap s) (accounts s) (rand s) (rand_pos s)
    (trace s).
Definition set_game_servers (v : gmap Z loc) (s : LoginServer) : LoginServer :=
  mkLoginServer (players s) v (heap s) (accounts s) (rand s) (rand_pos s)
    (trace s).
Definition set_heap (v : gmap loc Peer) (s : LoginServer) : LoginServer :=
  mkLoginServer (players s) (game_servers s) v (accounts s) (rand s)
    (rand_pos s) (trace s).
Definition set_accounts (v : Accounts) (s : LoginServer) : LoginServer :=
  mkLoginServer (players s) (game_servers s) (heap s) v (rand s) (rand_pos s)
    (trace s).
Definition set_rand_pos (v : nat) (s : LoginServer) : LoginServer :=
  mkLoginServer (players s) (game_servers s) (heap s) (accounts s) (rand s) v
    (trace s).
Definition set_trace (v : list Effect) (s : LoginServer) : LoginServer :=
  mkLoginServer (players s) (game_servers s) (heap s) (accounts s) (rand s)
    (rand_pos s) v.

(** ** Handlers as state transformers that return or raise *)

Definition M (A : Type) : Type := LoginServer -> result A * LoginServer.

Definition ret {A} (a : A) : M A := fun s => (Ok a, s).
Definition raise {A} (e : Exn) : M A := fun s => (Raise e, s).
Definition bind {A B} (m : M A) (k : A -> M B) : M B :=
  fun s =>
    match m s with
    | (Ok a, s') => k a s'
    | (Raise e, s') => (Raise e, s')
    end.
Definition get : M LoginServer := fun s => (Ok s, s).
Definition modify (f : LoginServer -> LoginServer) : M unit :=
  fun s => (Ok tt, f s).

#[global] Instance M_ret : MRet M := @ret.
#[global] Instance M_bind : MBind M := fun A B k m => bind m k.

(** A [for] loop over a list. *)
Fixpoint for_each {A} (l : list A) (f : A -> M unit) : M unit :=
  match l with
  | [] => ret tt
  | x :: l' => f x ;; for_each l' f
  end.

(** [assert cond] *)
Definition assert (cond : bool) : M unit :=
  if cond then ret tt else raise AssertionError.

Definition emit (e : Effect) : M unit :=
  modify (fun s => set_trace (trace s ++ [e]) s).

Definition log (level : Level) (entry : LogEntry) : M unit :=
  emit (Log level entry).

(** [msg.peer] *)
Definition get_peer (msg : Message) : M loc :=
  match peer msg with
  | Some l => ret l
  | None => raise AttributeError
  end.

(** Reading an attribute of a player, resp. game server: the object has to be
    one. *)
Definition get_player (l : loc) : M Player.t :=
  s ← get;
  match heap s !! l with
  | Some (PlayerObj p) => ret p
  | _ => raise AttributeError
  end.

Definition get_game_server (l : loc) : M GameServer.t :=
  s ← get;
  match heap s !! l with
  | Some (GameServerObj g) => ret g
  | _ => raise AttributeError
  end.

(** Assigning attributes of a player, resp. game server, in place. *)
Definition update_peer (f : Peer -> Peer) (l : loc) : M unit :=
  modify (fun s => set_heap (alter f l (heap s)) s).

Definition update_player (f : Player.t -> Player.t) (l : loc) : M unit :=
  update_peer (fun o => match o with PlayerObj p => PlayerObj (f p) | _ => o end) l.

Definition update_game_server (f : GameServer.t -> GameServer.t) (l : loc)
    : M unit :=
  update_peer
    (fun o => match o with GameServerObj g => GameServerObj (f g) | _ => o end) l.

(** [peer.send(data)] and [peer.disconnect(exc)] belong to the transport. *)
Definition send (l : loc) (data : Payload) : M unit := emit (Send l data).
Definition disconnect (l : loc) (exc : option Exn) : M unit :=
  emit (Disconnect l exc).

(** [random.choice(seq)] *)
Definition random_choice (seq : str) : M char :=
  s ← get;
  match seq !! (rand s (rand_pos s) mod length seq)%nat with
  | Some c => modify (fun s => set_rand_pos (S (rand_pos s)) s) ;; ret c
  | None => raise IndexError
  end.

(** [[f() for i in range(n)]] *)
Fixpoint repeat_M {A} (n : nat) (m : M A) : M (list A) :=
  match n with
  | O => ret []
  | S n' => x ← m; xs ← repeat_M n' m; ret (x :: xs)
  end.

(** ** Handlers and player states outside the two modules *)

(** Handlers of the table whose work is done by collaborators (pending
    callbacks, HTTP, version parsing, address and server info, match time,
    ready state), and the request handling of the player states other than
    [UnauthenticatedState]: arbitrary state transformers. *)
Class Collaborators := {
  handle_execute_callback_message : Message -> M unit;
  handle_http_request_message : Message -> M unit;
  handle_launcher_protocol_version_message : Message -> M unit;
  handle_address_info_message : Message -> M unit;
  handle_server_info_message : Message -> M unit;
  handle_match_time_message : Message -> M unit;
  handle_server_ready_message : Message -> M unit;
  state_handle_request : PlayerState -> loc -> Request -> M unit
}.

Context `{col : Collaborators}.

(** ** [LoginServer] methods *)

(** [LoginServer.change_player_unique_id] *)
Definition change_player_unique_id (old_id new_id : Z) : M unit :=
  s ← get;
  if bool_decide (is_Some (players s !! new_id)) then raise AlreadyLoggedInError
  else
    assert (bool_decide (is_Some (players s !! old_id)));;
    assert (negb (bool_decide (is_Some (players s !! new_id))));;
    match players s !! old_id with
    | None => raise KeyError
    | Some player =>
        modify (fun s => set_players (delete old_id (players s)) s);;
        update_player (Player.set_unique_id new_id) player;;
        modify (fun s => set_players (<[new_id := player]> (players s)) s)
    end.

(** [LoginServer.handle_authcode_request_message] *)
Definition handle_authcode_request_message (msg : Message) : M unit :=
  match body msg with
  | AuthCodeRequestMessage login_name =>
      authcode_requester ← get_peer msg;
      let validation_failure := validate_username login_name in
      if truthy validation_failure then
        log Warning (LogAuthcodeRefused login_name (default [] validation_failure));;
        send authcode_requester
          (Text (lit "Error: " ++ default [] validation_failure))
      else
        let availablechars :=
          filter (fun c => c ∉ lit "O0Il") (ascii_letters ++ digits) in
        authcode ← repeat_M 8 (random_choice availablechars);
        log Info (LogAuthcodeReturned login_name authcode);;
        modify (fun s =>
          set_accounts (accounts_add_account (accounts s) login_name authcode) s);;
        emit (AddAccount login_name authcode);;
        emit Save;;
        send authcode_requester (Text authcode)
  | _ => raise AttributeError
  end.

(** [LoginServer.handle_client_connected_message] *)
Definition handle_client_connected_message (msg : Message) : M unit :=
  l ← get_peer msg;
  s ← get;
  match heap s !! l with
  | Some (PlayerObj _) =>
      let unique_id := first_unused_number_above (dom (players s)) 10000000 in
      emit (ConnectToSocialNetwork l);;
      update_player (Player.set_unique_id unique_id) l;;
      emit (ComplementAddressPair l);;
      update_player (Player.set_state UnauthenticatedState) l;;
      modify (fun s => set_players (<[unique_id := l]> (players s)) s)
  | Some (GameServerObj _) =>
      let server_id := first_unused_number_above (dom (game_servers s)) 1 in
      update_game_server (GameServer.set_ids server_id (server_id + 10000000)) l;;
      update_game_server (GameServer.set_game_setting_mode None) l;;
      modify (fun s => set_game_servers (<[server_id := l]> (game_servers s)) s);;
      log Info (LogAddedGameServer server_id)
  | Some AuthCodeRequesterObj => ret tt
  | None => raise AssertionError
  end.

(** [del registry[key]] *)
Definition del_key (registry : gmap Z loc) (key : Z) : M (gmap Z loc) :=
  match registry !! key with
  | Some _ => ret (delete key registry)
  | None => raise KeyError
  end.

(** [LoginServer.handle_client_disconnected_message] *)
Definition handle_client_disconnected_message (msg : Message) : M unit :=
  l ← get_peer msg;
  s ← get;
  match heap s !! l with
  | Some (PlayerObj player) =>
      disconnect l None;;
      emit (RemoveReceiver l);;
      update_player (Player.set_state OfflineState) l;;
      s ← get;
      players' ← del_key (players s) (Player.unique_id player);
      modify (set_players players')
  | Some (GameServerObj game_server) =>
      log Info (LogRemovedGameServer (GameServer.server_id game_server));;
      disconnect l None;;
      emit (RemoveReceiver l);;
      s ← get;
      game_servers' ← del_key (game_servers s) (GameServer.server_id game_server);
      modify (set_game_servers game_servers')
  | Some AuthCodeRequesterObj => disconnect l None
  | None => raise AssertionError
  end.

(** [LoginServer.handle_map_info_message] *)
Definition handle_map_info_message (msg : Message) : M unit :=
  match body msg with
  | Launcher2LoginMapInfoMessage map_id =>
      game_server ← get_peer msg;
      update_game_server (GameServer.set_map_id map_id) game_server
  | _ => raise AttributeError
  end.

(** [int(player_id)] in [handle_team_info_message]: the keys of
    [msg.player_to_team_id] are strings, the keys of a JSON object. *)
Definition int_of (player_id : str) : M Z :=
  match int player_id with
  | Some n => ret n
  | None => raise ValueError
  end.

(** One iteration of the loop of [handle_team_info_message]. *)
Definition team_info_step (game_server : loc) (item : str * Z) : M unit :=
  let '(player_id, team_id) := item in
  player_id ← int_of player_id;
  s ← get;
  match players s !! player_id with
  | Some l =>
      player ← get_player l;
      if bool_decide (Player.game_server player = Some game_server) then
        update_player (Player.set_team (Some team_id)) l
      else
        gs ← get_game_server game_server;
        log Warning (LogTeamInfoInvalid (GameServer.server_id gs) player_id)
  | None =>
      gs ← get_game_server game_server;
      log Warning (LogTeamInfoInvalid (GameServer.server_id gs) player_id)
  end.

(** [LoginServer.handle_team_info_message] *)
Definition handle_team_info_message (msg : Message) : M unit :=
  match body msg with
  | Launcher2LoginTeamInfoMessage player_to_team_id =>
      game_server ← get_peer msg;
      for_each player_to_team_id (team_info_step game_server)
  | _ => raise AttributeError
  end.

(** [LoginServer.handle_score_info_message] *)
Definition handle_score_info_message (msg : Message) : M unit :=
  match body msg with
  | Launcher2LoginScoreInfoMessage be_score ds_score =>
      game_server ← get_peer msg;
      update_game_server (GameServer.set_scores be_score ds_score) game_server
  | _ => raise AttributeError
  end.

(** [LoginServer.handle_match_end_message] *)
Definition handle_match_end_message (msg : Message) : M unit :=
  game_server ← get_peer msg;
  gs ← get_game_server game_server;
  log Info (LogMatchEnded (GameServer.server_id gs)).

(** ** [UnauthenticatedState] *)

(** [UnauthenticatedState.handle_a01bc] *)
Definition handle_a01bc (player : loc) (request : Request) : M unit :=
  send player (Packets [a01bc]);;
  send player (Packets [other_request 0x0197]).

(** [UnauthenticatedState.handle_a0033] *)
Definition handle_a0033 (player : loc) (request : Request) : M unit :=
  send player (Packets [a0033]).

(** [[p.display_name for p in self.player.login_server.players.values()
      if p.display_name is not None]] *)
Fixpoint display_names (ps : list loc) : M (list str) :=
  match ps with
  | [] => ret []
  | l :: ps' =>
      p ← get_player l;
      names ← display_names ps';
      ret (match Player.display_name p with
           | Some name => name :: names
           | None => names
           end)
  end.

Definition names_in_use : M (list str) :=
  s ← get;
  display_names (map snd (map_to_list (players s))).

(** [UnauthenticatedState.handle_login_request]; [player] is [self.player]. *)
Definition handle_login_request (player : loc) (request : Request) : M unit :=
  match request with
  | a003a None _ => send player (Packets [a003a None None])
  | a003a (Some content) m0494 =>
      match m0494 with
      | None => raise AttributeError
      | Some value =>
          update_player (Player.set_login_name (Some value)) player;;
          update_player (Player.set_password_hash (Some content)) player;;
          let validation_failure := validate_username value in
          if truthy validation_failure then
            send player LoginRejected;;
            match encode_latin1 value with
            | None => raise UnicodeError
            | Some raw =>
                log Info (LogLoginRejected raw (default [] validation_failure))
            end
          else
            s ← get;
            match accounts_get (accounts s) value with
            | Some account =>
                if bool_decide (Some content = Account.password_hash account) then
                  p ← get_player player;
                  change_player_unique_id (Player.unique_id p)
                    (Account.unique_id account);;
                  update_player (Player.set_registered true) player
                else ret tt
            | None => ret tt
            end;;
            names ← names_in_use;
            p ← get_player player;
            match choose_display_name value (Player.registered p) names
                    max_name_length with
            | Raise e => raise e
            | Ok display_name =>
                update_player (Player.set_display_name (Some display_name)) player;;
                emit (Load player);;
                p ← get_player player;
                send player (LoginAccepted p);;
                update_player (Player.set_state AuthenticatedState) player
            end
      end
  | _ => raise AttributeError
  end.

(** Modelled from the spec: [Player.handle_request] and the [handles]
    registration of [player_state.py] are not part of the two modules.  The
    spec: "Each state declares the set of request codes it accepts; a request
    code unhandled by the current state is a protocol violation."  The three
    [@handles] methods of [UnauthenticatedState] are its accepted set; the
    other states are collaborators. *)
Definition handle_request (player : loc) (request : Request) : M unit :=
  p ← get_player player;
  match Player.state p with
  | UnauthenticatedState =>
      match request with
      | a01bc => handle_a01bc player request
      | a0033 => handle_a0033 player request
      | a003a _ _ => handle_login_request player request
      | other_request _ => raise ProtocolViolationError
      end
  | st => state_handle_request st player request
  end.

(** [LoginServer.handle_client_message] *)
Definition handle_client_message (msg : Message) : M unit :=
  match body msg with
  | LoginProtocolMessage clientseq requests =>
      current_player ← get_peer msg;
      update_player (Player.set_last_received_seq (Some clientseq)) current_player;;
      log Info (LogClientSent current_player (map ident requests));;
      for_each requests (handle_request current_player)
  | _ => raise AttributeError
  end.

(** ** The dispatcher *)

(** [self.message_handlers[type(message)]]; [None] stands for the
    [KeyError]. *)
Definition message_handlers (b : MessageBody) : option (Message -> M unit) :=
  match b with
  | AuthCodeRequestMessage _ => Some handle_authcode_request_message
  | ExecuteCallbackMessage _ => Some handle_execute_callback_message
  | HttpRequestMessage _ => Some handle_http_request_message
  | PeerConnectedMessage => Some handle_client_connected_message
  | PeerDisconnectedMessage => Some handle_client_disconnected_message
  | LoginProtocolMessage _ _ => Some handle_client_message
  | Launcher2LoginProtocolVersionMessage _ =>
      Some handle_launcher_protocol_version_message
  | Launcher2LoginAddressInfoMessage _ _ => Some handle_address_info_message
  | Launcher2LoginServerInfoMessage _ _ _ _ => Some handle_server_info_message
  | Launcher2LoginMapInfoMessage _ => Some handle_map_info_message
  | Launcher2LoginTeamInfoMessage _ => Some handle_team_info_message
  | Launcher2LoginScoreInfoMessage _ _ => Some handle_score_info_message
  | Launcher2LoginMatchTimeMessage _ _ => Some handle_match_time_message
  | Launcher2LoginServerReadyMessage _ => Some handle_server_ready_message
  | Launcher2LoginMatchEndMessage => Some handle_match_end_message
  | UnknownMessage => None
  end.

(** What the dispatcher does when [handler(message)] raised [e]: the
    [except Exception] clause of [run]. *)
Definition on_exception (message : Message) (e : Exn) : M unit :=
  match peer message with
  | Some l =>
      log Error LogDispatchException;;
      disconnect l (Some e)
  | None => raise e
  end.

(** The body of the [for] loop of [run], for one message. *)
Definition dispatch (message : Message) : M unit :=
  match message_handlers (body message) with
  | None => raise KeyError
  | Some handler =>
      fun s =>
        match handler message s with
        | (Ok tt, s') => (Ok tt, s')
        | (Raise e, s') => on_exception message e s'
        end
  end.

(** The loop of [run] over the messages that the queue delivers.  The result
    is [Ok tt] while the loop is alive and waits for the next message, and
    [Raise e] once an exception has left it. *)
Definition serve (queue : list Message) : M unit := for_each queue dispatch.

(** [LoginServer.run], on the messages that the queue delivers. *)
Definition run (queue : list Message) : M unit :=
  log Info LogServerStarted;;
  emit ResetFirewall;;
  serve queue.

End LoginServer.

(** ** An environment for the examples *)

(** The printable ASCII characters other than the space. *)
Definition example_allowed (b : N) : bool := ((33 <=? b) && (b <=? 126))%N.

(** [int] for the examples: a string of ASCII decimal digits with an optional
    sign is converted, any other string is refused.  (The builtin also takes
    blanks around the number and underscores between digits; the examples
    have none.) *)
Fixpoint decimal (digits : str) (acc : Z) : option Z :=
  match digits with
  | [] => Some acc
  | c :: rest =>
      if ((48 <=? c) && (c <=? 57))%N
      then decimal rest (10 * acc + Z.of_N (c - 48))
      else None
  end.

Definition example_int (s : str) : option Z :=
  match s with
  | [] => None
  | c :: rest =>
      if (c =? 45)%N then
        match rest with [] => None | _ => Z.opp <$> decimal rest 0 end
      else if (c =? 43)%N then
        match rest with [] => None | _ => decimal rest 0 end
      else decimal s 0
  end.

(** Names of 3 to 15 characters; accounts in a finite map, a new account for
    an unknown name taking the next free id. *)
Definition example_env : Env := {|
  min_name_length := 3;
  max_name_length := 15;
  allowed_name_byte := example_allowed;
  int := example_int;
  Accounts := gmap str Account.t;
  accounts_get := fun accs name => accs !! name;
  accounts_add_account := fun accs name authcode =>
    match accs !! name with
    | Some a => <[name := Account.mk None (Account.unique_id a)]> accs
    | None => <[name := Account.mk None (1 + Z.of_nat (size accs))]> accs
    end
|}.

(** Collaborators that do nothing. *)
Definition example_col : @Collaborators example_env := {|
  handle_execute_callback_message := fun _ => ret tt;
  handle_http_request_message := fun _ => ret tt;
  handle_launcher_protocol_version_message := fun _ => ret tt;
  handle_address_info_message := fun _ => ret tt;
  handle_server_info_message := fun _ => ret tt;
  handle_match_time_message := fun _ => ret tt;
  handle_server_ready_message := fun _ => ret tt;
  state_handle_request := fun _ _ _ => ret tt
|}.

(** A player, resp. a game server, as the transport hands it over. *)
Definition new_player : Player.t :=
  Player.mk 0 None None None false None None None OfflineState.
Definition new_game_server : GameServer.t := GameServer.mk 0 0 None 0 0 0.

(** A login server without connections, over the given peer objects. *)
Definition empty_server (objects : gmap loc Peer) (accs : gmap str Account.t)
    : @LoginServer example_env :=
  @mkLoginServer example_env ∅ ∅ objects accs (fun _ => O) O [].

(** ** Reading the state *)

Section Observations.
Context `{env : Env}.

(** The [server_id] and [match_id] of the game server object [l]. *)
Definition server_id_of (s : LoginServer) (l : loc) : option Z :=
  match heap s !! l with
  | Some (GameServerObj g) => Some (GameServer.server_id g)
  | _ => None
  end.

Definition match_id_of (s : LoginServer) (l : loc) : option Z :=
  match heap s !! l with
  | Some (GameServerObj g) => Some (GameServer.match_id g)
  | _ => None
  end.

(** The player object [l]. *)
Definition player_of (s : LoginServer) (l : loc) : option Player.t :=
  match heap s !! l with
  | Some (PlayerObj p) => Some p
  | _ => None
  end.


(** The player registry holds player objects only. *)
Definition is_player_obj (o : option Peer) : bool :=
  match o with
  | Some (PlayerObj _) => true
  | _ => false
  end.

Definition registry_of_players (s : LoginServer) : Prop :=
  map_Forall (fun _ l => is_player_obj (heap s !! l) = true) (players s).





End Observations.

(** ** States for the examples *)

Definition alice_hash : bytes := [1; 2; 3]%N.

Definition alice_account : Account.t := Account.mk (Some alice_hash) 5.

Definition example_accounts : gmap str Account.t :=
  {[lit "Alice" := alice_account]}.

(** A player logged in on the account of Alice, attached to the game server
    object 3. *)
Definition logged_in_alice : Player.t :=
  Player.mk 5 (Some (lit "Alice")) (Some alice_hash) (Some (lit "Alice")) true
    None (Some 3%positive) None AuthenticatedState.

(** A player that has connected and not logged in. *)
Definition connecting_player : Player.t :=
  Player.mk 10000000 None None None false None None None UnauthenticatedState.

(** Two connected players, objects 1 and 2, and one game server, object 3;
    object 4 is an auth-code requester. *)
Definition two_players : @LoginServer example_env :=
  @mkLoginServer example_env
    {[5 := 1%positive; 10000000 := 2%positive]}
    {[1 := 3%positive]}
    {[1%positive := PlayerObj logged_in_alice;
      2%positive := PlayerObj connecting_player;
      3%positive := GameServerObj (GameServer.mk 1 10000001 None 0 0 0);
      4%positive := AuthCodeRequesterObj]}
    example_accounts (fun n => n) O [].

(** ** Lookups of [LoginServer] *)

Section Lookups.
Context `{env : Env}.

(** [str.lower], a builtin. *)
Variable lower : str -> str.

(** The loop of [find_server_by_id] and of [find_server_by_match_id] over the
    game servers in the order [values()] gives them; [field] is the attribute
    that is compared. *)
Fixpoint first_server_with (field : GameServer.t -> Z) (values : list loc)
    (wanted : Z) : M loc :=
  match values with
  | [] => raise ProtocolViolationError
  | game_server :: rest =>
      g ← get_game_server game_server;
      if bool_decide (field g = wanted) then ret game_server
      else first_server_with field rest wanted
  end.

(** [self.all_game_servers().values()], resp. [self.players.values()].  A
    Python dict gives its values in the order of insertion, the finite map in
    the order of its keys; the properties of the lookups are stated for every
    order. *)
Definition game_server_values (s : LoginServer) : list loc :=
  map snd (map_to_list (game_servers s)).

Definition player_values (s : LoginServer) : list loc :=
  map snd (map_to_list (players s)).

(** [LoginServer.find_server_by_id] *)
Definition find_server_by_id (server_id : Z) : M loc :=
  s ← get;
  first_server_with GameServer.server_id (game_server_values s) server_id.

(** [LoginServer.find_server_by_match_id] *)
Definition find_server_by_match_id (match_id : Z) : M loc :=
  s ← get;
  first_server_with GameServer.match_id (game_server_values s) match_id.

(** The list comprehension of [find_player_by_display_name]:
    [[p for p in values if p.display_name.lower() == display_name.lower()]].
    [None.lower()] is an [AttributeError]. *)
Fixpoint matching_players (values : list loc) (display_name : str)
    : M (list loc) :=
  match values with
  | [] => ret []
  | l :: rest =>
      p ← get_player l;
      match Player.display_name p with
      | None => raise AttributeError
      | Some name =>
          matches ← matching_players rest display_name;
          ret (if bool_decide (lower name = lower display_name)
               then l :: matches else matches)
      end
  end.

(** [LoginServer.find_player_by_display_name]; the result is the player, or
    [None]. *)
Definition find_player_by_display_name (display_name : str)
    : M (option loc) :=
  s ← get;
  matching ← matching_players (player_values s) display_name;
  ret (head matching).

End Lookups.

(** ** Invariants of the registries *)

Section Invariants.
Context `{env : Env}.

(** Every key of the player registry leads to a player object whose
    [unique_id] is that key. *)
Definition keyed_player (s : LoginServer) (id : Z) (l : loc) : bool :=
  match heap s !! l with
  | Some (PlayerObj p) => bool_decide (Player.unique_id p = id)
  | _ => false
  end.

Definition players_consistent (s : LoginServer) : Prop :=
  map_Forall (fun id l => keyed_player s id l = true) (players s).

(** Every key of the game-server registry leads to a game server object whose
    [server_id] is that key and whose [match_id] is the key plus
    10000000. *)
Definition keyed_game_server (s : LoginServer) (id : Z) (l : loc) : bool :=
  match heap s !! l with
  | Some (GameServerObj g) =>
      bool_decide (GameServer.server_id g = id)
      && bool_decide (GameServer.match_id g = id + 10000000)
  | _ => false
  end.

Definition game_servers_consistent (s : LoginServer) : Prop :=
  map_Forall (fun id l => keyed_game_server s id l = true) (game_servers s).

(** The object [l] is not in the player, resp. game-server, registry. *)
Definition unregistered_player (s : LoginServer) (l : loc) : Prop :=
  map_Forall (fun _ l' => l' ≠ l) (players s).

Definition unregistered_game_server (s : LoginServer) (l : loc) : Prop :=
  map_Forall (fun _ l' => l' ≠ l) (game_servers s).

(** A handler keeps the property [P] of the state, whether it returns or
    raises. *)
Definition keeps {A} (P : LoginServer -> Prop) (m : M A) : Prop :=
  forall s, P s -> P (snd (m s)).

(** A property that reads the registries and the peer objects only. *)
Definition reads_registries (P : LoginServer -> Prop) : Prop :=
  forall s s', players s' = players s -> game_servers s' = game_servers s ->
               heap s' = heap s -> P s -> P s'.

(** What the two invariants read of a peer object. *)
Definition player_key (o : Peer) : option Z :=
  match o with
  | PlayerObj p => Some (Player.unique_id p)
  | _ => None
  end.

Definition game_server_key (o : Peer) : option (Z * Z) :=
  match o with
  | GameServerObj g => Some (GameServer.server_id g, GameServer.match_id g)
  | _ => None
  end.

(** A property of the registries that attribute assignments other than those
    of the ids keep, and that the removal of a key keeps. *)
Definition stable (P : LoginServer -> Prop) : Prop :=
  reads_registries P
  /\ (forall F l,
        (forall o, player_key (F o) = player_key o) ->
        (forall o, game_server_key (F o) = game_server_key o) ->
        keeps P (update_peer F l))
  /\ (forall k s, P s -> P (set_players (delete k (players s)) s))
  /\ (forall k s, P s -> P (set_game_servers (delete k (game_servers s)) s)).

(** The game-server registry holds game server objects only. *)
Definition is_game_server_obj (o : option Peer) : bool :=
  match o with
  | Some (GameServerObj _) => true
  | _ => false
  end.

Definition registry_of_game_servers (s : LoginServer) : Prop :=
  map_Forall (fun _ l => is_game_server_obj (heap s !! l) = true)
    (game_servers s).

(** What a lookup of a game server by [field] gives in the state [s]: a
    registered game server whose [field] is [wanted], or
    [ProtocolViolationError] when no registered game server has it; the state
    is left as it is. *)
Definition lookup_outcome (s : LoginServer) (field : GameServer.t -> Z)
    (wanted : Z) (r : result loc * LoginServer) : Prop :=
  match r with
  | (Ok l, s') =>
      s' = s
      /\ (exists k, game_servers s !! k = Some l)
      /\ exists g, heap s !! l = Some (GameServerObj g) /\ field g = wanted
  | (Raise e, s') =>
      s' = s
      /\ e = ProtocolViolationError
      /\ forall k l g,
           game_servers s !! k = Some l ->
           heap s !! l = Some (GameServerObj g) -> field g <> wanted
  end.

(** The test of the list comprehension of [find_player_by_display_name] on
    the player object [l], with [lower] for [str.lower]. *)
Definition name_matches (lower : str -> str) (s : LoginServer)
    (display_name : str) (l : loc) : bool :=
  match heap s !! l with
  | Some (PlayerObj p) =>
      match Player.display_name p with
      | Some name => bool_decide (lower name = lower display_name)
      | None => false
      end
  | _ => false
  end.

(** The player object [l] has no display name. *)
Definition nameless (s : LoginServer) (l : loc) : Prop :=
  exists p, heap s !! l = Some (PlayerObj p) /\ Player.display_name p = None.

(** The display names of the connected players, in the order of
    [player_values]. *)
Definition display_names_of (s : LoginServer) : list str :=
  omap (fun l =>
          match heap s !! l with
          | Some (PlayerObj p) => Player.display_name p
          | _ => None
          end)
       (player_values s).

End Invariants.

Section CollaboratorInvariants.
Context `{env : Env} `{col : !Collaborators}.

(** The handlers that are parameters, those of the class [Collaborators],
    keep [P]. *)
Definition collaborators_keep (P : LoginServer -> Prop) : Prop :=
  (forall msg, keeps P (handle_execute_callback_message msg))
  /\ (forall msg, keeps P (handle_http_request_message msg))
  /\ (forall msg, keeps P (handle_launcher_protocol_version_message msg))
  /\ (forall msg, keeps P (handle_address_info_message msg))
  /\ (forall msg, keeps P (handle_server_info_message msg))
  /\ (forall msg, keeps P (handle_match_time_message msg))
  /\ (forall msg, keeps P (handle_server_ready_message msg))
  /\ (forall st player request,
        keeps P (state_handle_request st player request)).

End CollaboratorInvariants.

(** ** More states for the examples *)

(** [two_players] with the first player gone from the registry. *)
Definition one_player : @LoginServer example_env :=
  @set_players example_env {[10000000 := 2%positive]} two_players.

(** [two_players] with the second player gone from the registry. *)
Definition only_alice : @LoginServer example_env :=
  @set_players example_env {[5 := 1%positive]} two_players.

(** Lower case for the ASCII letters, the other characters unchanged. *)
Definition ascii_lower (s : str) : str :=
  map (fun c => if ((65 <=? c) && (c <=? 90))%N then (c + 32)%N else c) s.

(** [two_players] with two more objects that have not connected: the player
    object 5 and the game server object 6. *)
Definition lobby : @LoginServer example_env :=
  @set_heap example_env
    (<[5%positive := PlayerObj new_player]>
       (<[6%positive := GameServerObj new_game_server]> (heap two_players)))
    two_players.

(** * Properties *)

(** ** Display names *)

Lemma name_loop_step base names dn index :
  name_loop base names dn index =
  if in_list dn names then
    if index + 1 <? 100 then
      name_loop base names (lit "unv" ++ fmt_02d index ++ lit "-" ++ base)
        (index + 1)
    else Raise AssertionError
  else Ok dn.
Proof.
  funelim (name_loop base names dn index).
  - by rewrite Heq.
  - by rewrite Heq, Hlt.
  - by rewrite Heq, Hge.
Qed.

Lemma name_loop_free base names dn index r :
  name_loop base names dn index = Ok r → r ∉ names.
Proof.
  funelim (name_loop base names dn index); intros Hr.
  - injection Hr as <-.
    unfold in_list in Heq. by apply bool_decide_eq_false in Heq.
  - by apply H.
  - discriminate.
Qed.

Lemma candidate_indexed base index :
  2 ≤ index →
  candidate base index = lit "unv" ++ fmt_02d index ++ lit "-" ++ base.
Proof.
  intros Hi. unfold candidate.
  destruct (index <? 2) eqn:E; [apply Z.ltb_lt in E; lia | done].
Qed.

(** The loop entered at [index] with the candidate number [index - 1]. *)
Lemma name_loop_outcome base names (n : nat) : ∀ index,
  2 ≤ index ≤ 99 → n = Z.to_nat (99 - index) →
  (∃ k, (index - 1 ≤ k ≤ 98)
        ∧ name_loop base names (candidate base (index - 1)) index
          = Ok (candidate base k)
        ∧ (candidate base k ∉ names)
        ∧ ∀ j, index - 1 ≤ j < k → candidate base j ∈ names)
  ∨ (name_loop base names (candidate base (index - 1)) index
       = Raise AssertionError
     ∧ ∀ j, index - 1 ≤ j ≤ 98 → candidate base j ∈ names).
Proof.
  induction n as [|n IH]; intros index Hi Hn; rewrite name_loop_step;
    unfold in_list; case_bool_decide as Hin.
  - assert (index = 99) as -> by lia. right. split; [reflexivity|].
    intros j Hj. by assert (j = 99 - 1) as -> by lia.
  - left. exists (index - 1). repeat split; [lia..|done|lia].
  - destruct (index + 1 <? 100) eqn:E; [|apply Z.ltb_ge in E; lia].
    rewrite <- candidate_indexed by lia.
    pose proof (IH (index + 1) ltac:(lia) ltac:(lia)) as IH'.
    replace (index + 1 - 1) with index in IH' by lia.
    destruct IH' as [(k & Hk & Hr & Hfree & Hused)|[Hr Hused]].
    + left. exists k. repeat split; [lia..|done|done|].
      intros j Hj. destruct (decide (j = index - 1)) as [->|]; [done|].
      apply Hused. lia.
    + right. split; [done|]. intros j Hj.
      destruct (decide (j = index - 1)) as [->|]; [done|]. apply Hused. lia.
  - left. exists (index - 1). repeat split; [lia..|done|lia].
Qed.

(** C7.  With [registered = false] the retry loop of [choose_display_name]
    always comes to an end.  Either it returns a candidate that is not in
    [names_in_use], the first free one in the order ["unvrf-"], ["unv02-"],
    ["unv03-"], ..., ["unv98-"], or every one of these candidates is in use
    and the call fails with the assertion error, raised when the index
    reaches 100. *)
Theorem choose_display_name_terminates (login_name : str)
    (names_in_use : list str) (max_name_length : Z) :
  let base := slice_to login_name (max_name_length - 6) in
  (∃ k, (1 ≤ k ≤ 98)
        ∧ choose_display_name login_name false names_in_use max_name_length
          = Ok (candidate base k)
        ∧ (candidate base k ∉ names_in_use)
        ∧ ∀ j, 1 ≤ j < k → candidate base j ∈ names_in_use)
  ∨ (choose_display_name login_name false names_in_use max_name_length
       = Raise AssertionError
     ∧ ∀ j, 1 ≤ j ≤ 98 → candidate base j ∈ names_in_use).
Proof.
  intros base. unfold choose_display_name.
  change (len (lit "unvrf-")) with 6. fold base.
  change (lit "unvrf-" ++ base) with (candidate base (2 - 1)).
  by apply (name_loop_outcome base names_in_use (Z.to_nat (99 - 2)) 2).
Qed.

(** The slice [s[:n]] with a bound that is not negative is the prefix of at
    most [n] characters. *)
Lemma slice_to_nonneg (s : str) (n : Z) :
  0 ≤ n → slice_to s n = take (Z.to_nat n) s.
Proof.
  intros Hn. unfold slice_to.
  destruct (n <? 0) eqn:E; [apply Z.ltb_lt in E; lia | done].
Qed.

Lemma slice_to_all (s : str) (n : Z) : len s ≤ n → slice_to s n = s.
Proof.
  intros Hn. unfold len in Hn. rewrite slice_to_nonneg by lia.
  apply take_ge. lia.
Qed.

(** C4, as the code has it.  For a registered account the result is
    [login_name[:max_name_length]] whatever is in [names_in_use] (the prefix
    of at most [max_name_length] characters when the bound is not negative).
    For an unregistered one, a returned name is not in [names_in_use]; with
    an empty [names_in_use] the result is ["unvrf-"] followed by
    [login_name[:max_name_length - 6]], which is the whole login name when it
    has at most [max_name_length - 6] characters. *)
Theorem choose_display_name_result (login_name : str)
    (names_in_use : list str) (max_name_length : Z) :
  choose_display_name login_name true names_in_use max_name_length
    = Ok (slice_to login_name max_name_length)
  ∧ (0 ≤ max_name_length →
     slice_to login_name max_name_length
       = take (Z.to_nat max_name_length) login_name)
  ∧ (∀ display_name,
       choose_display_name login_name false names_in_use max_name_length
         = Ok display_name →
       display_name ∉ names_in_use)
  ∧ choose_display_name login_name false [] max_name_length
      = Ok (lit "unvrf-" ++ slice_to login_name (max_name_length - 6))
  ∧ (len login_name ≤ max_name_length - 6 →
     choose_display_name login_name false [] max_name_length
       = Ok (lit "unvrf-" ++ login_name)).
Proof.
  assert (choose_display_name login_name false [] max_name_length
          = Ok (lit "unvrf-" ++ slice_to login_name (max_name_length - 6)))
    as Hempty.
  { unfold choose_display_name. by rewrite name_loop_step. }
  split; [done|]. split; [|split; [|split]].
  - apply slice_to_nonneg.
  - intros display_name. unfold choose_display_name. apply name_loop_free.
  - exact Hempty.
  - intros Hlen. rewrite Hempty. by rewrite slice_to_all.
Qed.

(** The claim as stated fails for a login name longer than
    [max_name_length - 6]: the unregistered name is cut, it is not
    ["unvrf-" + login_name]. *)
Lemma choose_display_name_truncates :
  len (lit "abcdefghijkl") ≤ 15
  ∧ choose_display_name (lit "abcdefghijkl") false [] 15
    = Ok (lit "unvrf-abcdefghi")
  ∧ choose_display_name (lit "abcdefghijkl") false [] 15
    ≠ Ok (lit "unvrf-" ++ lit "abcdefghijkl").
Proof. split; [by vm_compute|]. split; [by vm_compute | by vm_compute]. Qed.

Lemma choose_display_name_result_witness :
  0 ≤ 15
  ∧ choose_display_name (lit "Alice") false [lit "unvrf-Alice"] 15
    = Ok (lit "unv02-Alice")
  ∧ len (lit "Alice") ≤ 15 - 6
  ∧ (lit "unv02-Alice" ∉ [lit "unvrf-Alice"])
  ∧ choose_display_name (lit "Alice") false [] 15
    = Ok (lit "unvrf-" ++ lit "Alice")
  ∧ slice_to (lit "Alice") 15 = take (Z.to_nat 15) (lit "Alice").
Proof.
  pose proof (choose_display_name_result (lit "Alice") [lit "unvrf-Alice"] 15)
    as (_ & Hslice & Hfree & _ & Hwhole).
  assert (0 ≤ 15) as Hnonneg by lia.
  assert (choose_display_name (lit "Alice") false [lit "unvrf-Alice"] 15
          = Ok (lit "unv02-Alice")) as Hcall by (by vm_compute).
  assert (len (lit "Alice") ≤ 15 - 6) as Hlen by (by vm_compute).
  exact (conj Hnonneg (conj Hcall (conj Hlen
           (conj (Hfree _ Hcall) (conj (Hwhole Hlen) (Hslice Hnonneg)))))).
Defined.

Section Properties.
Context `{env : Env} `{col : !Collaborators}.

(** ** Running the monad *)

Ltac mrun :=
  unfold mbind, M_bind, bind, mret, M_ret, ret, log, send, disconnect, emit,
    modify, assert, raise, get;
  cbn.

(** Unfolds the field updates of the server state. *)
Ltac snorm :=
  unfold set_players, set_game_servers, set_heap, set_accounts, set_rand_pos,
    set_trace;
  cbn.

Lemma bind_run {A B} (m : M A) (k : A → M B) (s : LoginServer) :
  (m ≫= k) s
  = match m s with (Ok a, s') => k a s' | (Raise e, s') => (Raise e, s') end.
Proof. reflexivity. Qed.

Lemma alter_present {V} (f : V → V) (m : gmap loc V) (l : loc) (x : V) :
  m !! l = Some x → alter f l m = <[l := f x]> m.
Proof.
  intros Hl. apply map_eq. intros i.
  destruct (decide (l = i)) as [<-|Hne].
  - by rewrite lookup_alter_eq, lookup_insert_eq, Hl.
  - by rewrite lookup_alter_ne, lookup_insert_ne.
Qed.

Lemma get_player_run (l : loc) (p : Player.t) (s : LoginServer) :
  heap s !! l = Some (PlayerObj p) → get_player l s = (Ok p, s).
Proof. intros Hl. unfold get_player. rewrite bind_run. simpl. by rewrite Hl. Qed.

Lemma get_game_server_run (l : loc) (g : GameServer.t) (s : LoginServer) :
  heap s !! l = Some (GameServerObj g) → get_game_server l s = (Ok g, s).
Proof.
  intros Hl. unfold get_game_server. rewrite bind_run. simpl. by rewrite Hl.
Qed.

Lemma update_player_run (f : Player.t → Player.t) (l : loc) (p : Player.t)
    (s : LoginServer) :
  heap s !! l = Some (PlayerObj p) →
  update_player f l s = (Ok tt, set_heap (<[l := PlayerObj (f p)]> (heap s)) s).
Proof.
  intros Hl. unfold update_player, update_peer, modify.
  by rewrite (alter_present _ _ _ _ Hl).
Qed.

Lemma update_game_server_run (f : GameServer.t → GameServer.t) (l : loc)
    (g : GameServer.t) (s : LoginServer) :
  heap s !! l = Some (GameServerObj g) →
  update_game_server f l s
  = (Ok tt, set_heap (<[l := GameServerObj (f g)]> (heap s)) s).
Proof.
  intros Hl. unfold update_game_server, update_peer, modify.
  by rewrite (alter_present _ _ _ _ Hl).
Qed.

Lemma set_heap_set_heap (h1 h2 : gmap loc Peer) (s : LoginServer) :
  set_heap h2 (set_heap h1 s) = set_heap h2 s.
Proof. reflexivity. Qed.

Lemma get_run (s : LoginServer) : get s = (Ok s, s).
Proof. reflexivity. Qed.

(** ** User names *)

Lemma forallb_true_iff {A} (f : A → bool) (l : list A) :
  forallb f l = true ↔ ∀ c, c ∈ l → f c = true.
Proof.
  induction l as [|x l IH]; simpl.
  - split; [|done]. intros _ c Hc. by apply elem_of_nil in Hc.
  - rewrite andb_true_iff, IH. split.
    + intros [Hx Hl] c [->|Hc]%elem_of_cons; auto.
    + intros H. split; [apply H; left | intros c Hc; apply H; by right].
Qed.

Lemma validate_username_truthy (username : str) :
  validate_username username ≠ None →
  truthy (validate_username username) = true.
Proof.
  unfold validate_username.
  destruct (len username <? min_name_length); [done|].
  destruct (len username >? max_name_length); [done|].
  destruct (encode_ascii username); [|done].
  by destruct (negb (is_valid_ascii_for_name b)).
Qed.






(** ** Auth codes *)

Lemma set_rand_pos_same (s : LoginServer) : set_rand_pos (rand_pos s) s = s.
Proof. by destruct s. Qed.

Lemma random_choice_run (seq : str) (s : LoginServer) :
  seq ≠ [] →
  ∃ c, c ∈ seq
       ∧ random_choice seq s = (Ok c, set_rand_pos (S (rand_pos s)) s).
Proof.
  intros Hne. unfold random_choice. rewrite bind_run. simpl.
  destruct (seq !! (rand s (rand_pos s) mod length seq)%nat) as [c|] eqn:E.
  - exists c. split; [by eapply list_elem_of_lookup_2|done].
  - apply lookup_ge_None in E.
    assert (length seq ≠ 0%nat) by (by destruct seq).
    pose proof (Nat.mod_upper_bound (rand s (rand_pos s)) (length seq)).
    lia.
Qed.

Lemma repeat_random_choice_run (seq : str) (n : nat) : ∀ s : LoginServer,
  seq ≠ [] →
  ∃ code, length code = n
          ∧ (∀ c, c ∈ code → c ∈ seq)
          ∧ repeat_M n (random_choice seq) s
            = (Ok code, set_rand_pos (rand_pos s + n) s).
Proof.
  induction n as [|n IH]; intros s Hne; simpl.
  - exists []. split; [done|]. split; [by intros c ?%elem_of_nil|].
    unfold mret, M_ret, ret. by rewrite Nat.add_0_r, set_rand_pos_same.
  - destruct (random_choice_run seq s Hne) as (c & Hc & Hrun).
    destruct (IH (set_rand_pos (S (rand_pos s)) s) Hne)
      as (code & Hlen & Hin & Hrest).
    exists (c :: code). split; [by simpl; rewrite Hlen|].
    split; [by intros c' [->|?]%elem_of_cons; auto|].
    rewrite bind_run, Hrun, bind_run, Hrest. simpl.
    unfold set_rand_pos. simpl. do 3 f_equal. lia.
Qed.

(** C9.  For an auth-code request from a peer: when the login name passes
    validation, eight characters are drawn, each an ASCII letter or digit
    other than [O], [0], [I] and [l]; the pair of login name and code goes to
    [add_account], then [save] follows, and the code is sent to the requester.
    When validation fails with a reason, the requester is sent ["Error: "]
    followed by the reason; nothing is drawn and the account store is not
    called. *)
Theorem handle_authcode_request_message_outcome (s : LoginServer)
    (requester : loc) (login_name : str) :
  let msg := mkMessage (Some requester) (AuthCodeRequestMessage login_name) in
  (validate_username login_name = None →
   ∃ authcode,
     length authcode = 8%nat
     ∧ (∀ c, c ∈ authcode → c ∈ ascii_letters ++ digits ∧ c ∉ lit "O0Il")
     ∧ handle_authcode_request_message msg s
       = (Ok tt,
          set_trace
            (trace s ++
               [Log Info (LogAuthcodeReturned login_name authcode);
                AddAccount login_name authcode;
                Save;
                Send requester (Text authcode)])
            (set_accounts
               (accounts_add_account (accounts s) login_name authcode)
               (set_rand_pos (rand_pos s + 8) s))))
  ∧ (∀ reason, validate_username login_name = Some reason →
     handle_authcode_request_message msg s
     = (Ok tt,
        set_trace
          (trace s ++
             [Log Warning (LogAuthcodeRefused login_name reason);
              Send requester (Text (lit "Error: " ++ reason))])
          s)).
Proof.
  intros msg. split.
  - intros Hvalid.
    set (availablechars :=
           filter (λ c, c ∉ lit "O0Il") (ascii_letters ++ digits)).
    destruct (repeat_random_choice_run availablechars 8 s)
      as (authcode & Hlen & Hin & Hrun); [done|].
    exists authcode. split; [done|]. split.
    + intros c Hc. apply Hin in Hc. unfold availablechars in Hc.
      apply list_elem_of_filter in Hc. tauto.
    + unfold handle_authcode_request_message, msg. cbn [body peer get_peer].
      rewrite Hvalid. cbn [truthy]. rewrite bind_run. cbn [mret M_ret ret].
      rewrite bind_run. fold availablechars.
      rewrite Hrun. mrun. by rewrite <- !app_assoc.
  - intros reason Hreason.
    unfold handle_authcode_request_message. simpl.
    rewrite validate_username_truthy by (by rewrite Hreason).
    rewrite Hreason. mrun. by rewrite <- !app_assoc.
Qed.


(** ** The identity allocator *)

Lemma first_unused_from_correct (used : gset Z) (steps : nat) : ∀ n : Z,
  (size (filter (λ x : Z, (n ≤ x)%Z) used) ≤ steps)%nat →
  n ≤ first_unused_from steps used n
  ∧ (first_unused_from steps used n ∉ used)
  ∧ ∀ m, n ≤ m < first_unused_from steps used n → m ∈ used.
Proof.
  induction steps as [|steps IH]; intros n Hsize; simpl.
  - split; [lia|]. split; [|lia].
    intros Hn. assert (n ∈ filter (λ x, n ≤ x) used) as Hin.
    { apply elem_of_filter. split; [lia|done]. }
    assert (filter (λ x, n ≤ x) used ≡ ∅) as Hempty.
    { apply size_empty_inv. lia. }
    rewrite Hempty in Hin. by apply not_elem_of_empty in Hin.
  - case_bool_decide as Hn; [|split; [lia|]; split; [done|lia]].
    destruct (IH (n + 1)) as (Hle & Hfree & Hbelow).
    + assert (filter (λ x, n + 1 ≤ x) used ⊂ filter (λ x, n ≤ x) used) as Hsub.
      { split.
        - intros x [Hx ?]%elem_of_filter. apply elem_of_filter. split; [lia|done].
        - intros Hrev. assert (n ∈ filter (λ x, n + 1 ≤ x) used) as Hin.
          { apply Hrev, elem_of_filter. split; [lia|done]. }
          apply elem_of_filter in Hin. lia. }
      apply subset_size in Hsub. lia.
    + split; [lia|]. split; [done|]. intros m Hm.
      destruct (decide (m = n)) as [->|]; [done|]. apply Hbelow. lia.
Qed.

(** The allocator gives the smallest number from [minimum] on that is not in
    use. *)
Lemma first_unused_number_above_correct (numbers : gset Z) (minimum : Z) :
  minimum ≤ first_unused_number_above numbers minimum
  ∧ (first_unused_number_above numbers minimum ∉ numbers)
  ∧ ∀ m, minimum ≤ m < first_unused_number_above numbers minimum →
         m ∈ numbers.
Proof.
  apply first_unused_from_correct, subseteq_size.
  intros x [_ ?]%elem_of_filter. done.
Qed.

Lemma first_unused_number_above_reuses (numbers : gset Z) (minimum freed : Z) :
  minimum ≤ freed → freed ∉ numbers →
  first_unused_number_above numbers minimum ≤ freed.
Proof.
  intros Hmin Hfree.
  destruct (first_unused_number_above_correct numbers minimum)
    as (_ & _ & Hbelow).
  destruct (decide (first_unused_number_above numbers minimum ≤ freed));
    [done|].
  exfalso. apply Hfree, Hbelow. lia.
Qed.

(** ** Connecting and disconnecting game servers *)

Lemma connect_game_server_run (s : LoginServer) (l : loc) (g : GameServer.t) :
  heap s !! l = Some (GameServerObj g) →
  let server_id := first_unused_number_above (dom (game_servers s)) 1 in
  handle_client_connected_message (mkMessage (Some l) PeerConnectedMessage) s
  = (Ok tt,
     set_trace (trace s ++ [Log Info (LogAddedGameServer server_id)])
       (set_game_servers (<[server_id := l]> (game_servers s))
          (set_heap
             (<[l := GameServerObj
                       (GameServer.set_game_setting_mode None
                          (GameServer.set_ids server_id (server_id + 10000000)
                             g))]> (heap s)) s))).
Proof.
  intros Hl server_id. unfold handle_client_connected_message.
  mrun. rewrite Hl. mrun.
  by rewrite (alter_present _ _ _ _ Hl), alter_insert_eq.
Qed.

Lemma disconnect_game_server_run (s : LoginServer) (l registered : loc)
    (g : GameServer.t) :
  heap s !! l = Some (GameServerObj g) →
  game_servers s !! GameServer.server_id g = Some registered →
  handle_client_disconnected_message
    (mkMessage (Some l) PeerDisconnectedMessage) s
  = (Ok tt,
     set_game_servers (delete (GameServer.server_id g) (game_servers s))
       (set_trace
          (trace s ++
             [Log Info (LogRemovedGameServer (GameServer.server_id g));
              Disconnect l None;
              RemoveReceiver l]) s)).
Proof.
  intros Hl Hreg. unfold handle_client_disconnected_message.
  mrun. rewrite Hl. mrun. unfold del_key. rewrite Hreg. mrun.
  snorm. by rewrite <- !app_assoc.
Qed.

(** C6.  A connecting game server gets as [server_id] the smallest integer
    from 1 on that is not a key of the game-server registry, and
    [server_id + 10000000] as [match_id], and is registered under that id.
    Disconnecting a registered game server removes its key, and the next
    connect allocates an id that is at most the freed one.  Connecting A then
    B gives them the ids 1 and 2, A the match id 10000001; disconnecting A and
    connecting C gives C the id 1. *)
Theorem game_server_id_allocation :
  (∀ (s : LoginServer) (l : loc) (g : GameServer.t),
     heap s !! l = Some (GameServerObj g) →
     ∃ server_id s',
       handle_client_connected_message
         (mkMessage (Some l) PeerConnectedMessage) s = (Ok tt, s')
       ∧ 1 ≤ server_id
       ∧ game_servers s !! server_id = None
       ∧ (∀ m, 1 ≤ m < server_id → is_Some (game_servers s !! m))
       ∧ server_id_of s' l = Some server_id
       ∧ match_id_of s' l = Some (server_id + 10000000)
       ∧ game_servers s' = <[server_id := l]> (game_servers s))
  ∧ (∀ (s : LoginServer) (l registered : loc) (g : GameServer.t),
       heap s !! l = Some (GameServerObj g) →
       game_servers s !! GameServer.server_id g = Some registered →
       1 ≤ GameServer.server_id g →
       ∃ s',
         handle_client_disconnected_message
           (mkMessage (Some l) PeerDisconnectedMessage) s = (Ok tt, s')
         ∧ game_servers s' = delete (GameServer.server_id g) (game_servers s)
         ∧ first_unused_number_above (dom (game_servers s')) 1
           ≤ GameServer.server_id g)
  ∧ (∀ (accs : Accounts) (rnd : nat → nat) (a b c : GameServer.t),
       let s0 :=
         mkLoginServer ∅ ∅
           {[1%positive := GameServerObj a; 2%positive := GameServerObj b;
             3%positive := GameServerObj c]} accs rnd 0 [] in
       let connected l := mkMessage (Some l) PeerConnectedMessage in
       let disconnected l := mkMessage (Some l) PeerDisconnectedMessage in
       ∃ s2 s4,
         run [connected 1%positive; connected 2%positive] s0 = (Ok tt, s2)
         ∧ server_id_of s2 1%positive = Some 1
         ∧ match_id_of s2 1%positive = Some 10000001
         ∧ server_id_of s2 2%positive = Some 2
         ∧ run [connected 1%positive; connected 2%positive;
                disconnected 1%positive; connected 3%positive] s0
           = (Ok tt, s4)
         ∧ server_id_of s4 3%positive = Some 1
         ∧ match_id_of s4 3%positive = Some 10000001
         ∧ game_servers s4 = {[1 := 3%positive; 2 := 2%positive]}).
Proof.
  split; [|split].
  - intros s l g Hl.
    destruct (first_unused_number_above_correct (dom (game_servers s)) 1)
      as (Hmin & Hfree & Hbelow).
    eexists _, _. split; [by apply connect_game_server_run|].
    split; [done|]. split; [by apply not_elem_of_dom|].
    split; [intros m Hm; by apply elem_of_dom, Hbelow|].
    unfold server_id_of, match_id_of. simpl.
    by rewrite lookup_insert_eq.
  - intros s l registered g Hl Hreg Hpos.
    eexists. split; [by eapply disconnect_game_server_run|].
    simpl. split; [done|].
    apply first_unused_number_above_reuses; [done|].
    rewrite dom_delete_L. apply not_elem_of_difference. right.
    by apply elem_of_singleton.
  - intros accs rnd a b c s0 connected disconnected.
    eexists _, _. split; [by vm_compute|]. split; [by vm_compute|].
    split; [by vm_compute|]. split; [by vm_compute|].
    split; [by vm_compute|]. split; [by vm_compute|].
    split; [by vm_compute|]. by vm_compute.
Qed.

(** ** Re-keying the player registry *)

Lemma change_player_unique_id_collision (s : LoginServer) (old_id new_id : Z) :
  is_Some (players s !! new_id) →
  change_player_unique_id old_id new_id s = (Raise AlreadyLoggedInError, s).
Proof.
  intros Hnew. unfold change_player_unique_id. rewrite bind_run. mrun.
  by rewrite bool_decide_true.
Qed.

Lemma change_player_unique_id_moves (s : LoginServer) (old_id new_id : Z)
    (l : loc) :
  players s !! old_id = Some l →
  players s !! new_id = None →
  change_player_unique_id old_id new_id s
  = (Ok tt,
     set_players (<[new_id := l]> (delete old_id (players s)))
       (set_heap
          (alter (λ o, match o with
                       | PlayerObj p => PlayerObj (Player.set_unique_id new_id p)
                       | _ => o
                       end) l (heap s)) s)).
Proof.
  intros Hold Hnew. unfold change_player_unique_id. rewrite bind_run. mrun.
  rewrite bool_decide_false by (rewrite Hnew; by intros [? ?]).
  rewrite bool_decide_true by (by rewrite Hold).
  mrun. by rewrite Hold.
Qed.

(** C2.  With [old] in the registry: when [new] is free,
    [change_player_unique_id(old, new)] returns, the player object that was
    under [old] is under [new] with [unique_id = new] and its other
    attributes as before, [old] is no longer a key, and all other keys and
    objects are as before; when [new] is taken, the call raises
    [AlreadyLoggedInError] and the state is unchanged. *)
Theorem change_player_unique_id_rekeys (s : LoginServer) (old_id new_id : Z)
    (l : loc) :
  players s !! old_id = Some l →
  (players s !! new_id = None →
   ∃ s',
     change_player_unique_id old_id new_id s = (Ok tt, s')
     ∧ players s' !! new_id = Some l
     ∧ players s' !! old_id = None
     ∧ (∀ p, heap s !! l = Some (PlayerObj p) →
             heap s' !! l
             = Some (PlayerObj
                       (Player.mk new_id (Player.login_name p)
                          (Player.password_hash p) (Player.display_name p)
                          (Player.registered p) (Player.team p)
                          (Player.game_server p) (Player.last_received_seq p)
                          (Player.state p)))
             ∧ Player.unique_id <$> player_of s' l = Some new_id)
     ∧ (∀ id, id ≠ old_id → id ≠ new_id → players s' !! id = players s !! id)
     ∧ (∀ l', l' ≠ l → heap s' !! l' = heap s !! l')
     ∧ game_servers s' = game_servers s
     ∧ trace s' = trace s)
  ∧ (is_Some (players s !! new_id) →
     change_player_unique_id old_id new_id s = (Raise AlreadyLoggedInError, s)).
Proof.
  intros Hold. split; [|apply change_player_unique_id_collision].
  intros Hnew. assert (old_id ≠ new_id) as Hne by congruence.
  eexists. split; [by apply change_player_unique_id_moves|]. simpl.
  split; [apply lookup_insert_eq|].
  split; [by rewrite lookup_insert_ne, lookup_delete_eq|].
  split.
  { intros p Hp. unfold player_of. cbn [heap set_heap set_players].
    by rewrite lookup_alter_eq, Hp. }
  split; [intros id ? ?; by rewrite lookup_insert_ne, lookup_delete_ne|].
  split; [intros l' ?; by rewrite lookup_alter_ne|]. done.
Qed.

(** ** Logging in with an account whose id is taken *)

(** The login attempt of [player] with a valid name and the matching password
    hash of an account whose [unique_id] is a key of the player registry: the
    handler raises after it has stored the name and the hash. *)
Lemma handle_login_request_collision (s : LoginServer) (player : loc)
    (p : Player.t) (content : bytes) (value : str) (account : Account.t) :
  heap s !! player = Some (PlayerObj p) →
  validate_username value = None →
  accounts_get (accounts s) value = Some account →
  Account.password_hash account = Some content →
  is_Some (players s !! Account.unique_id account) →
  handle_login_request player (a003a (Some content) (Some value)) s
  = (Raise AlreadyLoggedInError,
     set_heap
       (<[player := PlayerObj (Player.set_password_hash (Some content)
                                 (Player.set_login_name (Some value) p))]>
          (heap s)) s).
Proof.
  intros Hp Hvalid Hacc Hhash Htaken. unfold handle_login_request.
  rewrite bind_run, (update_player_run _ _ _ _ Hp).
  rewrite bind_run,
    (update_player_run _ _ (Player.set_login_name (Some value) p))
    by (simpl; apply lookup_insert_eq).
  rewrite Hvalid. cbn [truthy]. rewrite set_heap_set_heap.
  cbn [heap set_heap]. rewrite insert_insert_eq.
  match goal with |- context [set_heap ?h s] => set (s1 := set_heap h s) end.
  assert (heap s1 !! player
          = Some (PlayerObj (Player.set_password_hash (Some content)
                               (Player.set_login_name (Some value) p))))
    as Hp1 by apply lookup_insert_eq.
  rewrite bind_run. cbn [get]. rewrite bind_run.
  change (accounts s1) with (accounts s). rewrite Hacc, Hhash.
  rewrite bool_decide_true by done.
  rewrite bind_run, (get_player_run _ _ _ Hp1).
  rewrite bind_run, change_player_unique_id_collision by done.
  done.
Qed.

(** C10.  [change_player_unique_id(old_id, new_id)] raises
    [AlreadyLoggedInError] whenever [new_id] is a key of the player registry,
    also when [old_id = new_id] and the key is the caller's own.  So a login
    with the matching password hash of an account whose [unique_id] is the id
    under which the player is registered is rejected with that error: the
    registry is unchanged and the player is neither marked registered nor
    moved to another state. *)
Theorem change_player_unique_id_own_id :
  (∀ (s : LoginServer) (old_id new_id : Z),
     is_Some (players s !! new_id) →
     change_player_unique_id old_id new_id s = (Raise AlreadyLoggedInError, s))
  ∧ (∀ (s : LoginServer) (id : Z) (l : loc),
       players s !! id = Some l →
       change_player_unique_id id id s = (Raise AlreadyLoggedInError, s))
  ∧ (∀ (s : LoginServer) (player : loc) (p : Player.t) (content : bytes)
       (value : str) (account : Account.t),
       heap s !! player = Some (PlayerObj p) →
       players s !! Player.unique_id p = Some player →
       validate_username value = None →
       accounts_get (accounts s) value = Some account →
       Account.password_hash account = Some content →
       Account.unique_id account = Player.unique_id p →
       ∃ s' p',
         handle_login_request player (a003a (Some content) (Some value)) s
           = (Raise AlreadyLoggedInError, s')
         ∧ players s' = players s
         ∧ trace s' = trace s
         ∧ heap s' !! player = Some (PlayerObj p')
         ∧ Player.unique_id p' = Player.unique_id p
         ∧ Player.registered p' = Player.registered p
         ∧ Player.state p' = Player.state p).
Proof.
  split; [apply change_player_unique_id_collision|].
  split; [intros s id l Hid; by apply change_player_unique_id_collision|].
  intros s player p content value account Hp Hreg Hvalid Hacc Hhash Hid.
  eexists _, _. split.
  - apply (handle_login_request_collision s player p content value account);
      try done.
    by rewrite Hid, Hreg.
  - simpl. by rewrite lookup_insert_eq.
Qed.

(** ** The dispatcher *)

Lemma for_each_app {A} (f : A → M unit) (l1 l2 : list A) : ∀ s : LoginServer,
  for_each (l1 ++ l2) f s
  = match for_each l1 f s with
    | (Ok _, s1) => for_each l2 f s1
    | (Raise e, s1) => (Raise e, s1)
    end.
Proof.
  induction l1 as [|x l1 IH]; intros s; simpl; [done|].
  rewrite !bind_run. destruct (f x s) as [[[]|e] s1]; [apply IH|done].
Qed.

Lemma run_app (pre rest : list Message) (s : LoginServer) :
  run (pre ++ rest) s
  = match run pre s with
    | (Ok _, s1) => serve rest s1
    | (Raise e, s1) => (Raise e, s1)
    end.
Proof.
  unfold run, serve. rewrite !bind_run. mrun. apply for_each_app.
Qed.

Lemma dispatch_handler_raises (message : Message)
    (handler : Message → M unit) (s s2 : LoginServer) (e : Exn) :
  message_handlers (body message) = Some handler →
  handler message s = (Raise e, s2) →
  dispatch message s = on_exception message e s2.
Proof. intros Hh Hr. unfold dispatch. by rewrite Hh, Hr. Qed.

Lemma dispatch_handler_returns (message : Message)
    (handler : Message → M unit) (s s2 : LoginServer) :
  message_handlers (body message) = Some handler →
  handler message s = (Ok tt, s2) →
  dispatch message s = (Ok tt, s2).
Proof. intros Hh Hr. unfold dispatch. by rewrite Hh, Hr. Qed.

(** C1.  Let the loop have processed the messages [pre] and be alive, and let
    the handler of the next message raise [e].  If the message has a peer,
    the dispatcher logs the error and calls [disconnect] on that peer, once,
    with [e], and goes on with the rest of the queue from there.  If the
    message has no peer, [e] leaves the loop: the run ends with [e] and the
    rest of the queue is not processed. *)
Theorem dispatcher_isolation (pre rest : list Message) (message : Message)
    (handler : Message → M unit) (s s1 s2 : LoginServer) (e : Exn) :
  run pre s = (Ok tt, s1) →
  message_handlers (body message) = Some handler →
  handler message s1 = (Raise e, s2) →
  (∀ l, peer message = Some l →
        dispatch message s1
        = (Ok tt,
           set_trace
             (trace s2 ++ [Log Error LogDispatchException;
                           Disconnect l (Some e)]) s2)
        ∧ run (pre ++ message :: rest) s
          = serve rest
              (set_trace
                 (trace s2 ++ [Log Error LogDispatchException;
                               Disconnect l (Some e)]) s2))
  ∧ (peer message = None →
     dispatch message s1 = (Raise e, s2)
     ∧ run (pre ++ message :: rest) s = (Raise e, s2)).
Proof.
  intros Hpre Hh Hr.
  pose proof (dispatch_handler_raises _ _ _ _ _ Hh Hr) as Hd.
  unfold on_exception in Hd. split.
  - intros l Hl. rewrite Hl in Hd.
    assert (dispatch message s1
            = (Ok tt,
               set_trace
                 (trace s2 ++ [Log Error LogDispatchException;
                               Disconnect l (Some e)]) s2)) as Hd'.
    { rewrite Hd. mrun. snorm. by rewrite <- app_assoc. }
    split; [done|].
    rewrite run_app, Hpre. unfold serve. simpl. by rewrite bind_run, Hd'.
  - intros Hnone. rewrite Hnone in Hd. split; [done|].
    rewrite run_app, Hpre. unfold serve. simpl. by rewrite bind_run, Hd.
Qed.



(** ** Logging in with an invalid name *)



(** ** Team info *)
















(** ** Properties that handlers keep *)

Lemma keeps_ret {A} (P : LoginServer → Prop) (a : A) : keeps P (ret a).
Proof. by intros s Hs. Qed.

Lemma keeps_raise {A} (P : LoginServer → Prop) (e : Exn) :
  keeps P (raise e : M A).
Proof. by intros s Hs. Qed.

Lemma keeps_get (P : LoginServer → Prop) : keeps P get.
Proof. by intros s Hs. Qed.

Lemma keeps_bind {A B} (P : LoginServer → Prop) (m : M A) (k : A → M B) :
  keeps P m → (∀ a, keeps P (k a)) → keeps P (m ≫= k).
Proof.
  intros Hm Hk s Hs. rewrite bind_run. specialize (Hm s Hs).
  destruct (m s) as [[a|e] s1]; simpl in *; [by apply Hk|done].
Qed.

Lemma keeps_modify (P : LoginServer → Prop) (f : LoginServer → LoginServer) :
  (∀ s, P s → P (f s)) → keeps P (modify f).
Proof. intros Hf s Hs. by apply Hf. Qed.

Lemma keeps_assert (P : LoginServer → Prop) (cond : bool) :
  keeps P (assert cond).
Proof. destruct cond; [apply keeps_ret|apply keeps_raise]. Qed.

Lemma keeps_for_each {A} (P : LoginServer → Prop) (f : A → M unit)
    (l : list A) :
  (∀ x, keeps P (f x)) → keeps P (for_each l f).
Proof.
  intros Hf. induction l as [|x l IH]; simpl; [apply keeps_ret|].
  apply keeps_bind; [apply Hf|by intros _].
Qed.

Lemma keeps_emit (P : LoginServer → Prop) (e : Effect) :
  reads_registries P → keeps P (emit e).
Proof. intros HP. apply keeps_modify. intros s. by apply HP. Qed.

Lemma keeps_get_peer (P : LoginServer → Prop) (msg : Message) :
  keeps P (get_peer msg).
Proof. unfold get_peer. destruct (peer msg); [apply keeps_ret|apply keeps_raise]. Qed.

Lemma keeps_get_player (P : LoginServer → Prop) (l : loc) :
  keeps P (get_player l).
Proof.
  unfold get_player. apply keeps_bind; [apply keeps_get|]. intros s.
  destruct (heap s !! l) as [[| |]|]; apply keeps_ret || apply keeps_raise.
Qed.

Lemma keeps_get_game_server (P : LoginServer → Prop) (l : loc) :
  keeps P (get_game_server l).
Proof.
  unfold get_game_server. apply keeps_bind; [apply keeps_get|]. intros s.
  destruct (heap s !! l) as [[| |]|]; apply keeps_ret || apply keeps_raise.
Qed.

Lemma keyed_player_key (s : LoginServer) (id : Z) (l : loc) :
  keyed_player s id l = true ↔ player_key <$> heap s !! l = Some (Some id).
Proof.
  unfold keyed_player. destruct (heap s !! l) as [[p| |]|]; simpl;
    try (split; [done|by intros [=]]).
  rewrite bool_decide_eq_true. split; [by intros ->|by intros [=]].
Qed.

Lemma keyed_game_server_key (s : LoginServer) (id : Z) (l : loc) :
  keyed_game_server s id l = true
  ↔ game_server_key <$> heap s !! l = Some (Some (id, id + 10000000)).
Proof.
  unfold keyed_game_server. destruct (heap s !! l) as [[|g|]|]; simpl;
    try (split; [done|by intros [=]]).
  rewrite andb_true_iff, !bool_decide_eq_true.
  split; [by intros [-> ->]|by intros [=]].
Qed.

Lemma players_consistent_reads : reads_registries players_consistent.
Proof.
  intros s s' Hp _ Hh Hs id l. rewrite Hp. intros Hid.
  specialize (Hs id l Hid). simpl in *. unfold keyed_player in *.
  by rewrite Hh.
Qed.

Lemma game_servers_consistent_reads : reads_registries game_servers_consistent.
Proof.
  intros s s' _ Hg Hh Hs id l. rewrite Hg. intros Hid.
  specialize (Hs id l Hid). simpl in *. unfold keyed_game_server in *.
  by rewrite Hh.
Qed.

(** Attribute assignments that leave the keys of the objects alone keep the
    invariants. *)
Lemma players_consistent_update (F : Peer → Peer) (l : loc) :
  (∀ o, player_key (F o) = player_key o) →
  keeps players_consistent (update_peer F l).
Proof.
  intros HF. apply keeps_modify. intros s Hs id l' Hid.
  specialize (Hs id l' Hid). simpl in *.
  apply keyed_player_key. apply keyed_player_key in Hs. simpl.
  destruct (decide (l = l')) as [<-|Hne].
  - rewrite lookup_alter_eq. destruct (heap s !! l) as [o|]; [|done].
    simpl in *. by rewrite HF.
  - by rewrite lookup_alter_ne.
Qed.

Lemma game_servers_consistent_update (F : Peer → Peer) (l : loc) :
  (∀ o, game_server_key (F o) = game_server_key o) →
  keeps game_servers_consistent (update_peer F l).
Proof.
  intros HF. apply keeps_modify. intros s Hs id l' Hid.
  specialize (Hs id l' Hid). simpl in *.
  apply keyed_game_server_key. apply keyed_game_server_key in Hs. simpl.
  destruct (decide (l = l')) as [<-|Hne].
  - rewrite lookup_alter_eq. destruct (heap s !! l) as [o|]; [|done].
    simpl in *. by rewrite HF.
  - by rewrite lookup_alter_ne.
Qed.

Lemma players_consistent_stable : stable players_consistent.
Proof.
  split; [apply players_consistent_reads|]. split; [|split].
  - intros F l HF _. by apply players_consistent_update.
  - intros k s Hs. unfold players_consistent. simpl.
    by apply map_Forall_delete.
  - intros k s Hs. done.
Qed.

Lemma game_servers_consistent_stable : stable game_servers_consistent.
Proof.
  split; [apply game_servers_consistent_reads|]. split; [|split].
  - intros F l _ HF. by apply game_servers_consistent_update.
  - intros k s Hs. done.
  - intros k s Hs. unfold game_servers_consistent. simpl.
    by apply map_Forall_delete.
Qed.

Section Stable.
Variable P : LoginServer → Prop.
Hypothesis Hstable : stable P.

Lemma stable_emit (e : Effect) : keeps P (emit e).
Proof. apply keeps_emit, Hstable. Qed.

Lemma stable_update_player (f : Player.t → Player.t) (l : loc) :
  (∀ p, Player.unique_id (f p) = Player.unique_id p) →
  keeps P (update_player f l).
Proof.
  intros Hf. apply Hstable.
  - intros [p| |]; simpl; by rewrite ?Hf.
  - by intros [p| |].
Qed.

Lemma stable_update_game_server (f : GameServer.t → GameServer.t) (l : loc) :
  (∀ g, GameServer.server_id (f g) = GameServer.server_id g) →
  (∀ g, GameServer.match_id (f g) = GameServer.match_id g) →
  keeps P (update_game_server f l).
Proof.
  intros Hsid Hmid. apply Hstable.
  - by intros [|g|].
  - intros [|g|]; simpl; by rewrite ?Hsid, ?Hmid.
Qed.

Lemma stable_random_choice (seq : str) : keeps P (random_choice seq).
Proof.
  unfold random_choice. apply keeps_bind; [apply keeps_get|]. intros s.
  destruct (seq !! _); [|apply keeps_raise].
  apply keeps_bind; [|intros _; apply keeps_ret].
  apply keeps_modify. intros s'. by apply Hstable.
Qed.

Lemma stable_repeat_M {A} (n : nat) (m : M A) :
  keeps P m → keeps P (repeat_M n m).
Proof.
  intros Hm. induction n as [|n IH]; simpl; [apply keeps_ret|].
  apply keeps_bind; [done|]. intros x.
  apply keeps_bind; [done|]. intros xs. apply keeps_ret.
Qed.

Lemma stable_authcode_request (msg : Message) :
  keeps P (handle_authcode_request_message msg).
Proof.
  unfold handle_authcode_request_message. destruct (body msg);
    try apply keeps_raise.
  apply keeps_bind; [apply keeps_get_peer|]. intros requester.
  destruct (truthy _).
  - apply keeps_bind; [apply stable_emit|]. intros _. apply stable_emit.
  - apply keeps_bind; [apply stable_repeat_M, stable_random_choice|].
    intros authcode. apply keeps_bind; [apply stable_emit|]. intros _.
    apply keeps_bind.
    { apply keeps_modify. intros s. by apply Hstable. }
    intros _. apply keeps_bind; [apply stable_emit|]. intros _.
    apply keeps_bind; [apply stable_emit|]. intros _. apply stable_emit.
Qed.

Lemma stable_del_players (player : Player.t) :
  keeps P (s ← get;
           players' ← del_key (players s) (Player.unique_id player);
           modify (set_players players')).
Proof.
  intros s Hs. rewrite bind_run, get_run, bind_run. unfold del_key.
  destruct (players s !! Player.unique_id player); [|done].
  simpl. by apply Hstable.
Qed.

Lemma stable_del_game_servers (game_server : GameServer.t) :
  keeps P (s ← get;
           game_servers' ← del_key (game_servers s)
                             (GameServer.server_id game_server);
           modify (set_game_servers game_servers')).
Proof.
  intros s Hs. rewrite bind_run, get_run, bind_run. unfold del_key.
  destruct (game_servers s !! GameServer.server_id game_server); [|done].
  simpl. by apply Hstable.
Qed.

Lemma stable_client_disconnected (msg : Message) :
  keeps P (handle_client_disconnected_message msg).
Proof.
  unfold handle_client_disconnected_message.
  apply keeps_bind; [apply keeps_get_peer|]. intros l.
  apply keeps_bind; [apply keeps_get|]. intros s.
  destruct (heap s !! l) as [[player|game_server|]|]; [| | |apply keeps_raise].
  - apply keeps_bind; [apply stable_emit|]. intros _.
    apply keeps_bind; [apply stable_emit|]. intros _.
    apply keeps_bind; [by apply stable_update_player|]. intros _.
    apply stable_del_players.
  - apply keeps_bind; [apply stable_emit|]. intros _.
    apply keeps_bind; [apply stable_emit|]. intros _.
    apply keeps_bind; [apply stable_emit|]. intros _.
    apply stable_del_game_servers.
  - apply stable_emit.
Qed.

Lemma stable_map_info (msg : Message) : keeps P (handle_map_info_message msg).
Proof.
  unfold handle_map_info_message. destruct (body msg); try apply keeps_raise.
  apply keeps_bind; [apply keeps_get_peer|]. intros l.
  by apply stable_update_game_server.
Qed.

Lemma stable_score_info (msg : Message) :
  keeps P (handle_score_info_message msg).
Proof.
  unfold handle_score_info_message. destruct (body msg); try apply keeps_raise.
  apply keeps_bind; [apply keeps_get_peer|]. intros l.
  by apply stable_update_game_server.
Qed.

Lemma stable_match_end (msg : Message) :
  keeps P (handle_match_end_message msg).
Proof.
  unfold handle_match_end_message.
  apply keeps_bind; [apply keeps_get_peer|]. intros l.
  apply keeps_bind; [apply keeps_get_game_server|]. intros g.
  apply stable_emit.
Qed.

Lemma stable_team_info (msg : Message) :
  keeps P (handle_team_info_message msg).
Proof.
  unfold handle_team_info_message. destruct (body msg); try apply keeps_raise.
  apply keeps_bind; [apply keeps_get_peer|]. intros gs.
  apply keeps_for_each. intros [key team_id]. unfold team_info_step.
  apply keeps_bind.
  { unfold int_of. destruct (int key); [apply keeps_ret|apply keeps_raise]. }
  intros player_id.
  apply keeps_bind; [apply keeps_get|]. intros s.
  destruct (players s !! player_id) as [l|].
  - apply keeps_bind; [apply keeps_get_player|]. intros p.
    case_bool_decide; [by apply stable_update_player|].
    apply keeps_bind; [apply keeps_get_game_server|]. intros g.
    apply stable_emit.
  - apply keeps_bind; [apply keeps_get_game_server|]. intros g.
    apply stable_emit.
Qed.

Lemma stable_on_exception (message : Message) (e : Exn) :
  keeps P (on_exception message e).
Proof.
  unfold on_exception. destruct (peer message); [|apply keeps_raise].
  apply keeps_bind; [apply stable_emit|]. intros _. apply stable_emit.
Qed.

End Stable.

Section StableLogin.
Variable P : LoginServer → Prop.
Hypothesis Hstable : stable P.
Hypothesis Hchange : ∀ old_id new_id,
  keeps P (change_player_unique_id old_id new_id).

Lemma stable_display_names (ps : list loc) : keeps P (display_names ps).
Proof.
  induction ps as [|l ps IH]; simpl; [apply keeps_ret|].
  apply keeps_bind; [apply keeps_get_player|]. intros p.
  apply keeps_bind; [apply IH|]. intros names. apply keeps_ret.
Qed.

Lemma stable_login_request (player : loc) (request : Request) :
  keeps P (handle_login_request player request).
Proof.
  unfold handle_login_request.
  destruct request as [| |[content|] [value|]|]; try apply keeps_raise;
    try apply (stable_emit P Hstable).
  apply keeps_bind; [by apply stable_update_player|]. intros _.
  apply keeps_bind; [by apply stable_update_player|]. intros _.
  destruct (truthy _).
  - apply keeps_bind; [by apply stable_emit|]. intros _.
    destruct (encode_latin1 value); [by apply stable_emit|apply keeps_raise].
  - apply keeps_bind; [apply keeps_get|]. intros s.
    apply keeps_bind.
    { destruct (accounts_get _ _) as [account|]; [|apply keeps_ret].
      case_bool_decide; [|apply keeps_ret].
      apply keeps_bind; [apply keeps_get_player|]. intros p.
      apply keeps_bind; [apply Hchange|]. intros _.
      by apply stable_update_player. }
    intros _. apply keeps_bind.
    { unfold names_in_use. apply keeps_bind; [apply keeps_get|]. intros s'.
      apply stable_display_names. }
    intros names. apply keeps_bind; [apply keeps_get_player|]. intros p.
    destruct (choose_display_name _ _ _ _); [|apply keeps_raise].
    apply keeps_bind; [by apply stable_update_player|]. intros _.
    apply keeps_bind; [by apply stable_emit|]. intros _.
    apply keeps_bind; [apply keeps_get_player|]. intros p'.
    apply keeps_bind; [by apply stable_emit|]. intros _.
    by apply stable_update_player.
Qed.

Hypothesis Hcol : collaborators_keep P.

Lemma stable_handle_request (player : loc) (request : Request) :
  keeps P (handle_request player request).
Proof.
  destruct Hcol as (_ & _ & _ & _ & _ & _ & _ & Hstate).
  unfold handle_request. apply keeps_bind; [apply keeps_get_player|].
  intros p. destruct (Player.state p); try apply Hstate.
  destruct request; [| |apply stable_login_request|apply keeps_raise].
  - unfold handle_a01bc. apply keeps_bind; [by apply stable_emit|].
    intros _. by apply stable_emit.
  - by apply stable_emit.
Qed.

Lemma stable_client_message (msg : Message) :
  keeps P (handle_client_message msg).
Proof.
  unfold handle_client_message. destruct (body msg); try apply keeps_raise.
  apply keeps_bind; [apply keeps_get_peer|]. intros l.
  apply keeps_bind; [by apply stable_update_player|]. intros _.
  apply keeps_bind; [by apply stable_emit|]. intros _.
  apply keeps_for_each. intros request. apply stable_handle_request.
Qed.

(** The dispatcher keeps [P] on every message, given that the connect handler
    keeps it on this one. *)
Lemma stable_dispatch (message : Message) (s : LoginServer) :
  P s →
  (body message = PeerConnectedMessage →
   P (snd (handle_client_connected_message message s))) →
  P (snd (dispatch message s)).
Proof.
  intros Hs Hconnect. unfold dispatch.
  destruct Hcol as (Hexec & Hhttp & Hversion & Haddress & Hinfo & Htime
                    & Hready & _).
  assert (∀ handler : Message → M unit,
            P (snd (handler message s)) →
            P (snd (match handler message s with
                    | (Ok tt, s') => (Ok tt, s')
                    | (Raise e, s') => on_exception message e s'
                    end))) as Hwrap.
  { intros handler Hh. destruct (handler message s) as [[[]|e] s']; [done|].
    by apply stable_on_exception. }
  destruct (body message) eqn:Hbody; simpl; try (apply Hwrap); try done.
  - by apply stable_authcode_request.
  - by apply Hexec.
  - by apply Hhttp.
  - by apply Hconnect.
  - by apply stable_client_disconnected.
  - by apply stable_client_message.
  - by apply Hversion.
  - by apply Haddress.
  - by apply Hinfo.
  - by apply stable_map_info.
  - by apply stable_team_info.
  - by apply stable_score_info.
  - by apply Htime.
  - by apply Hready.
  - by apply stable_match_end.
Qed.

(** The loop keeps [P] over a queue, given that the connect handler keeps it
    on the connects of the queue, each in the state in which the loop meets
    it. *)
Lemma stable_serve (queue : list Message) : ∀ s : LoginServer,
  P s →
  (∀ pre message rest s1,
     queue = pre ++ message :: rest →
     serve pre s = (Ok tt, s1) →
     body message = PeerConnectedMessage →
     P s1 →
     P (snd (handle_client_connected_message message s1))) →
  P (snd (serve queue s)).
Proof.
  induction queue as [|message queue IH]; intros s Hs Hconnect; [done|].
  unfold serve. cbn [for_each]. rewrite bind_run.
  assert (P (snd (dispatch message s))) as Hstep.
  { apply stable_dispatch; [done|]. intros Hbody.
    by apply (Hconnect [] message queue s). }
  destruct (dispatch message s) as [[[]|e] s1] eqn:Hd; [|done].
  apply IH; [done|]. intros pre message' rest s2 -> Hpre Hbody.
  apply (Hconnect (message :: pre) message' rest s2); [done| |done].
  unfold serve. cbn [for_each]. by rewrite bind_run, Hd.
Qed.

End StableLogin.

(** ** Connecting and disconnecting players *)

Lemma connect_player_run (s : LoginServer) (l : loc) (p : Player.t)
    (b : MessageBody) :
  heap s !! l = Some (PlayerObj p) →
  let unique_id := first_unused_number_above (dom (players s)) 10000000 in
  handle_client_connected_message (mkMessage (Some l) b) s
  = (Ok tt,
     set_players (<[unique_id := l]> (players s))
       (set_heap
          (<[l := PlayerObj
                    (Player.set_state UnauthenticatedState
                       (Player.set_unique_id unique_id p))]> (heap s))
          (set_trace
             (trace s ++ [ConnectToSocialNetwork l; ComplementAddressPair l])
             s))).
Proof.
  intros Hl unique_id. unfold handle_client_connected_message.
  mrun. rewrite Hl. mrun.
  rewrite (alter_present _ _ _ _ Hl), alter_insert_eq. snorm.
  by rewrite <- app_assoc.
Qed.

Lemma connect_game_server_run' (s : LoginServer) (l : loc) (g : GameServer.t)
    (b : MessageBody) :
  heap s !! l = Some (GameServerObj g) →
  let server_id := first_unused_number_above (dom (game_servers s)) 1 in
  handle_client_connected_message (mkMessage (Some l) b) s
  = (Ok tt,
     set_trace (trace s ++ [Log Info (LogAddedGameServer server_id)])
       (set_game_servers (<[server_id := l]> (game_servers s))
          (set_heap
             (<[l := GameServerObj
                       (GameServer.set_game_setting_mode None
                          (GameServer.set_ids server_id (server_id + 10000000)
                             g))]> (heap s)) s))).
Proof. intros Hl. by apply connect_game_server_run. Qed.

Lemma change_player_unique_id_missing (s : LoginServer) (old_id new_id : Z) :
  players s !! new_id = None →
  players s !! old_id = None →
  change_player_unique_id old_id new_id s = (Raise AssertionError, s).
Proof.
  intros Hnew Hold. unfold change_player_unique_id. rewrite bind_run. mrun.
  rewrite bool_decide_false by (rewrite Hnew; by intros [? ?]).
  by rewrite bool_decide_false by (rewrite Hold; by intros [? ?]).
Qed.

Lemma players_consistent_change (old_id new_id : Z) :
  keeps players_consistent (change_player_unique_id old_id new_id).
Proof.
  intros s Hs. destruct (players s !! new_id) as [taken|] eqn:Hnew.
  { by rewrite change_player_unique_id_collision by eauto. }
  destruct (players s !! old_id) as [l|] eqn:Hold.
  2: { by rewrite change_player_unique_id_missing. }
  rewrite (change_player_unique_id_moves s old_id new_id l) by done. simpl.
  pose proof (Hs old_id l Hold) as Hl. apply keyed_player_key in Hl.
  intros k l' Hk. apply keyed_player_key. simpl in *.
  destruct (decide (k = new_id)) as [->|Hne].
  - rewrite lookup_insert_eq in Hk. injection Hk as <-.
    rewrite lookup_alter_eq. by destruct (heap s !! l) as [[p| |]|].
  - rewrite lookup_insert_ne in Hk by done.
    apply lookup_delete_Some in Hk as [Hko Hk].
    pose proof (Hs k l' Hk) as Hl'. apply keyed_player_key in Hl'.
    assert (l ≠ l') as Hll by (intros ->; rewrite Hl in Hl'; congruence).
    by rewrite lookup_alter_ne.
Qed.

Lemma game_servers_consistent_change (old_id new_id : Z) :
  keeps game_servers_consistent (change_player_unique_id old_id new_id).
Proof.
  unfold change_player_unique_id. apply keeps_bind; [apply keeps_get|].
  intros s. case_bool_decide; [apply keeps_raise|].
  apply keeps_bind; [apply keeps_assert|]. intros _.
  apply keeps_bind; [apply keeps_assert|]. intros _.
  destruct (players s !! old_id) as [l|]; [|apply keeps_raise].
  apply keeps_bind; [apply keeps_modify; intros s' Hs'; exact Hs'|].
  intros _. apply keeps_bind.
  { apply game_servers_consistent_update. by intros [| |]. }
  intros _. apply keeps_modify. intros s' Hs'. exact Hs'.
Qed.

Lemma players_consistent_connect (message : Message) (s : LoginServer) :
  players_consistent s →
  (∀ l, peer message = Some l → unregistered_player s l) →
  players_consistent (snd (handle_client_connected_message message s)).
Proof.
  intros Hs Hfresh. destruct message as [[l|] b].
  2: { done. }
  specialize (Hfresh l eq_refl).
  destruct (heap s !! l) as [[p|g|]|] eqn:Hl.
  - pose proof (connect_player_run s l p b Hl) as Hrun. cbv zeta in Hrun.
    destruct (first_unused_number_above_correct (dom (players s)) 10000000)
      as (_ & Hfree%not_elem_of_dom & _).
    remember (first_unused_number_above (dom (players s)) 10000000) as uid.
    rewrite Hrun. intros k l' Hk. apply keyed_player_key.
    cbn [snd players heap set_players set_heap set_trace] in *.
    destruct (decide (k = uid)) as [->|Hne].
    + rewrite lookup_insert_eq in Hk. injection Hk as <-.
      by rewrite lookup_insert_eq.
    + rewrite lookup_insert_ne in Hk by done.
      rewrite lookup_insert_ne by (by apply not_eq_sym, (Hfresh k)).
      by apply keyed_player_key, Hs.
  - rewrite (connect_game_server_run' s l g b Hl). simpl.
    intros k l' Hk. pose proof (Hs k l' Hk) as Hl'.
    apply keyed_player_key. apply keyed_player_key in Hl'. simpl in *.
    assert (l ≠ l') as Hll by (intros ->; by rewrite Hl in Hl').
    by rewrite lookup_insert_ne.
  - unfold handle_client_connected_message. mrun. by rewrite Hl.
  - unfold handle_client_connected_message. mrun. by rewrite Hl.
Qed.

Lemma game_servers_consistent_connect (message : Message) (s : LoginServer) :
  game_servers_consistent s →
  (∀ l, peer message = Some l → unregistered_game_server s l) →
  game_servers_consistent (snd (handle_client_connected_message message s)).
Proof.
  intros Hs Hfresh. destruct message as [[l|] b].
  2: { done. }
  specialize (Hfresh l eq_refl).
  destruct (heap s !! l) as [[p|g|]|] eqn:Hl.
  - rewrite (connect_player_run s l p b Hl). simpl.
    intros k l' Hk. pose proof (Hs k l' Hk) as Hl'.
    apply keyed_game_server_key. apply keyed_game_server_key in Hl'.
    simpl in *.
    assert (l ≠ l') as Hll by (intros ->; by rewrite Hl in Hl').
    by rewrite lookup_insert_ne.
  - pose proof (connect_game_server_run' s l g b Hl) as Hrun.
    cbv zeta in Hrun.
    destruct (first_unused_number_above_correct (dom (game_servers s)) 1)
      as (_ & Hfree%not_elem_of_dom & _).
    remember (first_unused_number_above (dom (game_servers s)) 1) as sid.
    rewrite Hrun. intros k l' Hk. apply keyed_game_server_key.
    cbn [snd game_servers heap set_game_servers set_heap set_trace] in *.
    destruct (decide (k = sid)) as [->|Hne].
    + rewrite lookup_insert_eq in Hk. injection Hk as <-.
      by rewrite lookup_insert_eq.
    + rewrite lookup_insert_ne in Hk by done.
      rewrite lookup_insert_ne by (by apply not_eq_sym, (Hfresh k)).
      by apply keyed_game_server_key, Hs.
  - unfold handle_client_connected_message. mrun. by rewrite Hl.
  - unfold handle_client_connected_message. mrun. by rewrite Hl.
Qed.

Lemma run_serve (queue : list Message) (s : LoginServer) :
  run queue s
  = serve queue
      (set_trace (trace s ++ [Log Info LogServerStarted; ResetFirewall]) s).
Proof. unfold run. mrun. snorm. by rewrite <- app_assoc. Qed.

(** X1.  Along a run of the dispatch loop every key of the player registry
    leads to a player object whose [unique_id] is that key, whether the run
    goes on or ends with an exception: given that it is so at the start, that
    the handlers which are parameters here keep it so (the seven handlers of
    [LoginServer] of the class [Collaborators], and the request handlers of
    the player states other than [UnauthenticatedState]), and that an object
    that connects is not in the player registry when the loop meets its
    connect message. *)
Theorem players_stay_consistent (queue : list Message) (s : LoginServer) :
  collaborators_keep players_consistent →
  players_consistent s →
  (∀ pre message rest s1 l,
     queue = pre ++ message :: rest →
     run pre s = (Ok tt, s1) →
     body message = PeerConnectedMessage →
     peer message = Some l →
     unregistered_player s1 l) →
  players_consistent (snd (run queue s)).
Proof.
  intros Hcol Hs Hfresh. rewrite run_serve.
  apply (stable_serve players_consistent players_consistent_stable
           players_consistent_change Hcol).
  - revert Hs. by apply players_consistent_reads.
  - intros pre message rest s1 -> Hpre Hbody Hs1.
    apply players_consistent_connect; [done|]. intros l Hl.
    apply (Hfresh pre message rest s1 l); try done.
    by rewrite run_serve.
Qed.

(** X2.  Along a run of the dispatch loop every key of the game-server
    registry leads to a game server object whose [server_id] is that key and
    whose [match_id] is the key plus 10000000: given that it is so at the
    start, that the handlers which are parameters here keep it so (the seven
    handlers of [LoginServer] of the class [Collaborators], and the request
    handlers of the player states other than [UnauthenticatedState]), and
    that an object that connects is not in the game-server registry when the
    loop meets its connect message. *)
Theorem game_servers_stay_consistent (queue : list Message)
    (s : LoginServer) :
  collaborators_keep game_servers_consistent →
  game_servers_consistent s →
  (∀ pre message rest s1 l,
     queue = pre ++ message :: rest →
     run pre s = (Ok tt, s1) →
     body message = PeerConnectedMessage →
     peer message = Some l →
     unregistered_game_server s1 l) →
  game_servers_consistent (snd (run queue s)).
Proof.
  intros Hcol Hs Hfresh. rewrite run_serve.
  apply (stable_serve game_servers_consistent game_servers_consistent_stable
           game_servers_consistent_change Hcol).
  - revert Hs. by apply game_servers_consistent_reads.
  - intros pre message rest s1 -> Hpre Hbody Hs1.
    apply game_servers_consistent_connect; [done|]. intros l Hl.
    apply (Hfresh pre message rest s1 l); try done.
    by rewrite run_serve.
Qed.

(** X3.  A connecting player gets as [unique_id] the smallest integer from
    10000000 on that is not a key of the player registry, is registered under
    it and put into [UnauthenticatedState], its other attributes staying as
    they were; it is attached to the social network and its address pair is
    complemented; no other object and no game-server key changes. *)
Theorem player_connect (s : LoginServer) (l : loc) (p : Player.t) :
  heap s !! l = Some (PlayerObj p) →
  ∃ unique_id s',
    handle_client_connected_message (mkMessage (Some l) PeerConnectedMessage) s
      = (Ok tt, s')
    ∧ 10000000 ≤ unique_id
    ∧ players s !! unique_id = None
    ∧ (∀ m, 10000000 ≤ m < unique_id → is_Some (players s !! m))
    ∧ players s' = <[unique_id := l]> (players s)
    ∧ heap s' !! l
      = Some (PlayerObj
                (Player.mk unique_id (Player.login_name p)
                   (Player.password_hash p) (Player.display_name p)
                   (Player.registered p) (Player.team p)
                   (Player.game_server p) (Player.last_received_seq p)
                   UnauthenticatedState))
    ∧ Player.unique_id <$> player_of s' l = Some unique_id
    ∧ Player.state <$> player_of s' l = Some UnauthenticatedState
    ∧ (∀ l', l' ≠ l → heap s' !! l' = heap s !! l')
    ∧ game_servers s' = game_servers s
    ∧ trace s'
      = trace s ++ [ConnectToSocialNetwork l; ComplementAddressPair l].
Proof.
  intros Hl.
  destruct (first_unused_number_above_correct (dom (players s)) 10000000)
    as (Hmin & Hfree & Hbelow).
  eexists _, _. split; [by apply connect_player_run|]. simpl.
  split; [done|]. split; [by apply not_elem_of_dom|].
  split; [intros m Hm; by apply elem_of_dom, Hbelow|].
  split; [done|]. split; [by rewrite lookup_insert_eq|].
  split; [unfold player_of; cbn [heap set_heap set_players set_trace];
          by rewrite lookup_insert_eq|].
  split; [unfold player_of; cbn [heap set_heap set_players set_trace];
          by rewrite lookup_insert_eq|].
  split; [intros l' Hne; by rewrite lookup_insert_ne|]. done.
Qed.

Lemma disconnect_player_run (s : LoginServer) (l registered : loc)
    (p : Player.t) :
  heap s !! l = Some (PlayerObj p) →
  players s !! Player.unique_id p = Some registered →
  handle_client_disconnected_message
    (mkMessage (Some l) PeerDisconnectedMessage) s
  = (Ok tt,
     set_players (delete (Player.unique_id p) (players s))
       (set_heap (<[l := PlayerObj (Player.set_state OfflineState p)]> (heap s))
          (set_trace (trace s ++ [Disconnect l None; RemoveReceiver l]) s))).
Proof.
  intros Hl Hreg. unfold handle_client_disconnected_message.
  mrun. rewrite Hl. mrun. unfold del_key. rewrite Hreg. mrun.
  rewrite (alter_present _ _ _ _ Hl). snorm. by rewrite <- !app_assoc.
Qed.

Lemma disconnect_player_missing (s : LoginServer) (l : loc) (p : Player.t) :
  heap s !! l = Some (PlayerObj p) →
  players s !! Player.unique_id p = None →
  handle_client_disconnected_message
    (mkMessage (Some l) PeerDisconnectedMessage) s
  = (Raise KeyError,
     set_heap (<[l := PlayerObj (Player.set_state OfflineState p)]> (heap s))
       (set_trace (trace s ++ [Disconnect l None; RemoveReceiver l]) s)).
Proof.
  intros Hl Hreg. unfold handle_client_disconnected_message.
  mrun. rewrite Hl. mrun. unfold del_key. rewrite Hreg. mrun.
  rewrite (alter_present _ _ _ _ Hl). snorm. by rewrite <- !app_assoc.
Qed.

(** X4.  Disconnecting a player: its disconnect hook is called, its pending
    callbacks are removed and it is put into [OfflineState], its other
    attributes staying as they were; then the key
    [unique_id] is deleted from the player registry.  When that key is not in
    the registry (a second disconnect of the same player), the deletion
    raises [KeyError] after the other steps were done, and the dispatcher
    answers with one more [disconnect] call on the player, with the error. *)
Theorem player_disconnect (s : LoginServer) (l : loc) (p : Player.t) :
  heap s !! l = Some (PlayerObj p) →
  let msg := mkMessage (Some l) PeerDisconnectedMessage in
  let s1 :=
    set_heap
      (<[l := PlayerObj
                (Player.mk (Player.unique_id p) (Player.login_name p)
                   (Player.password_hash p) (Player.display_name p)
                   (Player.registered p) (Player.team p)
                   (Player.game_server p) (Player.last_received_seq p)
                   OfflineState)]> (heap s))
      (set_trace (trace s ++ [Disconnect l None; RemoveReceiver l]) s) in
  (is_Some (players s !! Player.unique_id p) →
   handle_client_disconnected_message msg s
   = (Ok tt, set_players (delete (Player.unique_id p) (players s)) s1))
  ∧ (players s !! Player.unique_id p = None →
     handle_client_disconnected_message msg s = (Raise KeyError, s1)
     ∧ dispatch msg s
       = (Ok tt,
          set_trace
            (trace s ++ [Disconnect l None; RemoveReceiver l;
                         Log Error LogDispatchException;
                         Disconnect l (Some KeyError)]) s1)).
Proof.
  intros Hl msg s1. split.
  - intros [registered Hreg]. by apply (disconnect_player_run s l registered).
  - intros Hreg.
    pose proof (disconnect_player_missing s l p Hl Hreg) as Hrun.
    split; [done|].
    rewrite (dispatch_handler_raises msg _ _ _ _ eq_refl Hrun).
    unfold on_exception, msg. mrun. snorm. by rewrite <- !app_assoc.
Qed.

Lemma dispatch_connected_returns (p : option loc) (s s2 : LoginServer) :
  handle_client_connected_message (mkMessage p PeerConnectedMessage) s
    = (Ok tt, s2) →
  dispatch (mkMessage p PeerConnectedMessage) s = (Ok tt, s2).
Proof. by apply dispatch_handler_returns. Qed.

Lemma dispatch_disconnected_returns (p : option loc) (s s2 : LoginServer) :
  handle_client_disconnected_message (mkMessage p PeerDisconnectedMessage) s
    = (Ok tt, s2) →
  dispatch (mkMessage p PeerDisconnectedMessage) s = (Ok tt, s2).
Proof. by apply dispatch_handler_returns. Qed.

(** X5.  A connect followed by the disconnect of the same peer, whatever its
    class, leaves both registries as they were before the connect, and no
    exception leaves the loop: for a peer that is neither a player nor a game
    server nor an auth-code requester both handlers fail their assertion and
    the dispatcher answers each time with a [disconnect] call. *)
Theorem connect_disconnect_restores (s : LoginServer) (l : loc) :
  ∃ s',
    serve [mkMessage (Some l) PeerConnectedMessage;
           mkMessage (Some l) PeerDisconnectedMessage] s = (Ok tt, s')
    ∧ players s' = players s
    ∧ game_servers s' = game_servers s.
Proof.
  unfold serve. cbn [for_each]. rewrite bind_run.
  destruct (heap s !! l) as [[p|g|]|] eqn:Hl.
  - pose proof (connect_player_run s l p PeerConnectedMessage Hl) as Hconn.
    cbv zeta in Hconn.
    destruct (first_unused_number_above_correct (dom (players s)) 10000000)
      as (_ & Hfree%not_elem_of_dom & _).
    remember (first_unused_number_above (dom (players s)) 10000000) as uid.
    rewrite (dispatch_connected_returns _ _ _ Hconn), bind_run.
    match goal with |- context [dispatch ?m ?st] =>
      rewrite (dispatch_disconnected_returns _ st _
                 (disconnect_player_run st l l _
                    ltac:(simpl; apply lookup_insert_eq)
                    ltac:(simpl; apply lookup_insert_eq)))
    end.
    eexists. split; [done|]. simpl. split; [|done].
    by apply delete_insert_id.
  - pose proof (connect_game_server_run' s l g PeerConnectedMessage Hl)
      as Hconn.
    cbv zeta in Hconn.
    destruct (first_unused_number_above_correct (dom (game_servers s)) 1)
      as (_ & Hfree%not_elem_of_dom & _).
    remember (first_unused_number_above (dom (game_servers s)) 1) as sid.
    rewrite (dispatch_connected_returns _ _ _ Hconn), bind_run.
    match goal with |- context [dispatch ?m ?st] =>
      rewrite (dispatch_disconnected_returns _ st _
                 (disconnect_game_server_run st l l _
                    ltac:(simpl; apply lookup_insert_eq)
                    ltac:(simpl; apply lookup_insert_eq)))
    end.
    eexists. split; [done|]. simpl. split; [done|].
    by apply delete_insert_id.
  - assert (handle_client_connected_message
              (mkMessage (Some l) PeerConnectedMessage) s = (Ok tt, s))
      as Hconn.
    { unfold handle_client_connected_message. mrun. by rewrite Hl. }
    rewrite (dispatch_connected_returns _ _ _ Hconn), bind_run.
    assert (handle_client_disconnected_message
              (mkMessage (Some l) PeerDisconnectedMessage) s
            = (Ok tt, set_trace (trace s ++ [Disconnect l None]) s))
      as Hdisc.
    { unfold handle_client_disconnected_message. mrun. by rewrite Hl. }
    rewrite (dispatch_disconnected_returns _ _ _ Hdisc).
    by eexists.
  - assert (∀ (b : MessageBody) (handler : Message → M unit)
              (s1 : LoginServer),
              message_handlers b = Some handler →
              handler (mkMessage (Some l) b) s1 = (Raise AssertionError, s1) →
              dispatch (mkMessage (Some l) b) s1
              = (Ok tt,
                 set_trace
                   (trace s1 ++ [Log Error LogDispatchException;
                                 Disconnect l (Some AssertionError)]) s1))
      as Hcaught.
    { intros b handler s1 Hh Hraise.
      rewrite (dispatch_handler_raises (mkMessage (Some l) b) handler s1 s1
                 AssertionError Hh Hraise).
      unfold on_exception. cbn [peer]. mrun. snorm.
      by rewrite <- app_assoc. }
    rewrite (Hcaught PeerConnectedMessage handle_client_connected_message s
               eq_refl)
      by (unfold handle_client_connected_message; mrun; by rewrite Hl).
    rewrite bind_run.
    match goal with |- context [dispatch ?m ?st] =>
      rewrite (Hcaught PeerDisconnectedMessage
                 handle_client_disconnected_message st eq_refl)
        by (unfold handle_client_disconnected_message; mrun; by rewrite Hl)
    end.
    by eexists.
Qed.

(** ** More on the dispatcher *)

Lemma message_handlers_known (b : MessageBody) :
  b ≠ UnknownMessage → is_Some (message_handlers b).
Proof. destruct b; simpl; eauto. by intros []. Qed.

Lemma dispatch_with_peer (message : Message) (l : loc) (s : LoginServer) :
  peer message = Some l →
  body message ≠ UnknownMessage →
  fst (dispatch message s) = Ok tt.
Proof.
  intros Hl Hknown. unfold dispatch.
  destruct (message_handlers_known _ Hknown) as [handler ->].
  destruct (handler message s) as [[[]|e] s']; [done|].
  unfold on_exception. by rewrite Hl.
Qed.

(** X6.  No exception leaves the dispatch loop over a queue of messages that
    all carry a peer and are of a class of the handler table, whatever their
    handlers do: the run is alive after the last message. *)
Theorem run_survives_peers (queue : list Message) (s : LoginServer) :
  (∀ message, message ∈ queue →
              is_Some (peer message) ∧ body message ≠ UnknownMessage) →
  fst (run queue s) = Ok tt.
Proof.
  rewrite run_serve. generalize (set_trace
    (trace s ++ [Log Info LogServerStarted; ResetFirewall]) s). clear s.
  induction queue as [|message queue IH]; intros s Hqueue; [done|].
  unfold serve. cbn [for_each]. rewrite bind_run.
  destruct (Hqueue message) as [[l Hl] Hknown]; [by left|].
  pose proof (dispatch_with_peer message l s Hl Hknown) as Hd.
  destruct (dispatch message s) as [[[]|e] s1]; [|done].
  apply IH. intros message' Hin. apply Hqueue. by right.
Qed.

(** X7.  A message of a class that is not in the handler table ends the run
    with [KeyError], also when it carries a peer: nothing is logged, no
    [disconnect] is called and the rest of the queue is not processed. *)
Theorem unknown_message_ends_run (pre rest : list Message)
    (message : Message) (s s1 : LoginServer) :
  run pre s = (Ok tt, s1) →
  body message = UnknownMessage →
  dispatch message s1 = (Raise KeyError, s1)
  ∧ run (pre ++ message :: rest) s = (Raise KeyError, s1).
Proof.
  intros Hpre Hbody.
  assert (dispatch message s1 = (Raise KeyError, s1)) as Hd.
  { unfold dispatch. by rewrite Hbody. }
  split; [done|]. rewrite run_app, Hpre. unfold serve. cbn [for_each].
  by rewrite bind_run, Hd.
Qed.

(** ** Logging in *)

Lemma display_names_run (s : LoginServer) (ps : list loc) :
  (∀ l, l ∈ ps → is_player_obj (heap s !! l) = true) →
  display_names ps s
  = (Ok (omap (λ l, match heap s !! l with
                    | Some (PlayerObj p) => Player.display_name p
                    | _ => None
                    end) ps), s).
Proof.
  induction ps as [|l ps IH]; intros Hps; [done|].
  cbn [display_names omap]. rewrite bind_run.
  pose proof (Hps l ltac:(by left)) as Hl.
  destruct (heap s !! l) as [[p| |]|] eqn:Hobj; try done.
  rewrite (get_player_run _ _ _ Hobj), bind_run, IH
    by (intros l' Hl'; apply Hps; by right).
  simpl. rewrite Hobj. by destruct (Player.display_name p).
Qed.

Lemma names_in_use_run (s : LoginServer) :
  registry_of_players s → names_in_use s = (Ok (display_names_of s), s).
Proof.
  intros Hwf. unfold names_in_use. rewrite bind_run, get_run.
  apply display_names_run. intros l Hl. unfold player_values in Hl.
  apply list_elem_of_fmap in Hl as ([k l'] & -> & Hin).
  apply elem_of_map_to_list in Hin. by apply (Hwf k).
Qed.

(** An assignment that leaves [display_name] alone leaves the names in use
    alone. *)
Lemma display_names_of_update (s : LoginServer) (l : loc) (p p' : Player.t) :
  heap s !! l = Some (PlayerObj p) →
  Player.display_name p' = Player.display_name p →
  display_names_of (set_heap (<[l := PlayerObj p']> (heap s)) s)
  = display_names_of s.
Proof.
  intros Hl Hname. unfold display_names_of, player_values. simpl.
  induction (map snd (map_to_list (players s))) as [|l' ps IH]; [done|].
  csimpl. rewrite IH. destruct (decide (l = l')) as [<-|Hne].
  - by rewrite lookup_insert_eq, Hl, Hname.
  - by rewrite lookup_insert_ne.
Qed.

Lemma registry_of_players_update (s : LoginServer) (l : loc) (p : Player.t) :
  registry_of_players s →
  registry_of_players (set_heap (<[l := PlayerObj p]> (heap s)) s).
Proof.
  intros Hwf k l' Hk. simpl in *. destruct (decide (l = l')) as [<-|Hne].
  - by rewrite lookup_insert_eq.
  - rewrite lookup_insert_ne by done. by apply (Hwf k).
Qed.

Lemma validate_username_None_bounds (username : str) :
  validate_username username = None →
  min_name_length ≤ len username ≤ max_name_length.
Proof.
  unfold validate_username.
  destruct (len username <? min_name_length) eqn:E1; [done|].
  destruct (len username >? max_name_length) eqn:E2; [done|].
  intros _. apply Z.ltb_ge in E1. rewrite Z.gtb_ltb in E2.
  apply Z.ltb_ge in E2. lia.
Qed.

(** The steps of [handle_login_request] after the account check, from a state
    in which [player] holds [p]. *)
Lemma login_finish (s : LoginServer) (player : loc) (p : Player.t)
    (value : str) :
  heap s !! player = Some (PlayerObj p) →
  registry_of_players s →
  (names ← names_in_use;
   p ← get_player player;
   match choose_display_name value (Player.registered p) names
           max_name_length with
   | Raise e => raise e
   | Ok display_name =>
       update_player (Player.set_display_name (Some display_name)) player;;
       emit (Load player);;
       p ← get_player player;
       send player (LoginAccepted p);;
       update_player (Player.set_state AuthenticatedState) player
   end) s
  = match choose_display_name value (Player.registered p)
            (display_names_of s) max_name_length with
    | Raise e => (Raise e, s)
    | Ok display_name =>
        let p' := Player.set_display_name (Some display_name) p in
        (Ok tt,
         set_heap
           (<[player := PlayerObj (Player.set_state AuthenticatedState p')]>
              (heap s))
           (set_trace
              (trace s ++ [Load player; Send player (LoginAccepted p')]) s))
    end.
Proof.
  intros Hp Hwf. rewrite bind_run, (names_in_use_run s Hwf).
  rewrite bind_run, (get_player_run _ _ _ Hp).
  destruct (choose_display_name _ _ _ _) as [display_name|e]; [|done].
  rewrite bind_run, (update_player_run _ _ _ _ Hp).
  rewrite bind_run. unfold emit at 1, modify at 1. rewrite bind_run.
  match goal with |- context [get_player player ?st] =>
    rewrite (get_player_run player
               (Player.set_display_name (Some display_name) p) st)
      by (simpl; apply lookup_insert_eq)
  end.
  rewrite bind_run. unfold send at 1, emit at 1, modify at 1.
  match goal with |- update_player ?f player ?st = _ =>
    rewrite (update_player_run f player
               (Player.set_display_name (Some display_name) p) st)
      by (simpl; apply lookup_insert_eq)
  end.
  snorm. by rewrite insert_insert_eq, <- app_assoc.
Qed.

(** The start of an actual login up to the account check. *)
Lemma login_start (s : LoginServer) (player : loc) (p : Player.t)
    (content : bytes) (value : str) :
  heap s !! player = Some (PlayerObj p) →
  validate_username value = None →
  handle_login_request player (a003a (Some content) (Some value)) s
  = let p1 := Player.set_password_hash (Some content)
                (Player.set_login_name (Some value) p) in
    let s1 := set_heap (<[player := PlayerObj p1]> (heap s)) s in
    ((match accounts_get (accounts s1) value with
      | Some account =>
          if bool_decide (Some content = Account.password_hash account) then
            p ← get_player player;
            change_player_unique_id (Player.unique_id p)
              (Account.unique_id account);;
            update_player (Player.set_registered true) player
          else ret tt
      | None => ret tt
      end;;
      names ← names_in_use;
      p ← get_player player;
      match choose_display_name value (Player.registered p) names
              max_name_length with
      | Raise e => raise e
      | Ok display_name =>
          update_player (Player.set_display_name (Some display_name)) player;;
          emit (Load player);;
          p ← get_player player;
          send player (LoginAccepted p);;
          update_player (Player.set_state AuthenticatedState) player
      end) s1).
Proof.
  intros Hp Hvalid. unfold handle_login_request.
  rewrite bind_run, (update_player_run _ _ _ _ Hp).
  rewrite bind_run,
    (update_player_run _ _ (Player.set_login_name (Some value) p))
    by (simpl; apply lookup_insert_eq).
  rewrite Hvalid. cbn [truthy]. rewrite set_heap_set_heap.
  cbn [heap set_heap]. rewrite insert_insert_eq.
  by rewrite bind_run, get_run.
Qed.

(** The run of a login attempt with a valid name that is not
    authenticated. *)
Lemma guest_login_run (s : LoginServer) (player : loc) (p : Player.t)
    (content : bytes) (value : str) :
  heap s !! player = Some (PlayerObj p) →
  registry_of_players s →
  validate_username value = None →
  (∀ account, accounts_get (accounts s) value = Some account →
              Account.password_hash account ≠ Some content) →
  let p1 := Player.set_password_hash (Some content)
              (Player.set_login_name (Some value) p) in
  let request := a003a (Some content) (Some value) in
  (∀ display_name,
     choose_display_name value (Player.registered p) (display_names_of s)
       max_name_length = Ok display_name →
     let p2 := Player.set_display_name (Some display_name) p1 in
     handle_login_request player request s
     = (Ok tt,
        set_heap
          (<[player := PlayerObj (Player.set_state AuthenticatedState p2)]>
             (heap s))
          (set_trace
             (trace s ++ [Load player; Send player (LoginAccepted p2)]) s))
     ∧ (Player.registered p = false → display_name ∉ display_names_of s))
  ∧ (∀ e,
       choose_display_name value (Player.registered p) (display_names_of s)
         max_name_length = Raise e →
       handle_login_request player request s
       = (Raise e, set_heap (<[player := PlayerObj p1]> (heap s)) s)).
Proof.
  intros Hp Hwf Hvalid Hacc p1 request.
  set (s1 := set_heap (<[player := PlayerObj p1]> (heap s)) s).
  assert (heap s1 !! player = Some (PlayerObj p1)) as Hp1
    by apply lookup_insert_eq.
  assert (registry_of_players s1) as Hwf1
    by (by apply registry_of_players_update).
  assert (display_names_of s1 = display_names_of s) as Hnames
    by (by apply (display_names_of_update s player p p1)).
  assert (handle_login_request player request s
          = match choose_display_name value (Player.registered p)
                    (display_names_of s) max_name_length with
            | Raise e => (Raise e, s1)
            | Ok display_name =>
                let p' := Player.set_display_name (Some display_name) p1 in
                (Ok tt,
                 set_heap
                   (<[player := PlayerObj
                                  (Player.set_state AuthenticatedState p')]>
                      (heap s1))
                   (set_trace
                      (trace s1 ++ [Load player; Send player (LoginAccepted p')])
                      s1))
            end) as Hrun.
  { unfold request. rewrite (login_start s player p content value) by done.
    cbv zeta. fold p1. fold s1. rewrite bind_run.
    change (accounts s1) with (accounts s).
    rewrite <- Hnames.
    destruct (accounts_get (accounts s) value) as [account|] eqn:Hget.
    - rewrite bool_decide_false
        by (intros Heq; by apply (Hacc account eq_refl)).
      by apply (login_finish s1 player p1 value).
    - by apply (login_finish s1 player p1 value). }
  split.
  - intros display_name Hname. rewrite Hrun, Hname. split.
    + cbv zeta. unfold s1. snorm. by rewrite insert_insert_eq.
    + intros Hguest. rewrite Hguest in Hname.
      unfold choose_display_name in Hname. by apply name_loop_free in Hname.
  - intros e Hname. by rewrite Hrun, Hname.
Qed.

(** The run of a login attempt with a valid name and the password hash of
    the account of that name. *)
Lemma registered_login_run (s : LoginServer) (player : loc) (p : Player.t)
    (content : bytes) (value : str) (account : Account.t) :
  heap s !! player = Some (PlayerObj p) →
  players s !! Player.unique_id p = Some player →
  registry_of_players s →
  validate_username value = None →
  accounts_get (accounts s) value = Some account →
  Account.password_hash account = Some content →
  players s !! Account.unique_id account = None →
  let p' :=
    Player.mk (Account.unique_id account) (Some value) (Some content)
      (Some value) true (Player.team p) (Player.game_server p)
      (Player.last_received_seq p) (Player.state p) in
  handle_login_request player (a003a (Some content) (Some value)) s
  = (Ok tt,
     set_players
       (<[Account.unique_id account := player]>
          (delete (Player.unique_id p) (players s)))
       (set_heap
          (<[player := PlayerObj (Player.set_state AuthenticatedState p')]>
             (heap s))
          (set_trace
             (trace s ++ [Load player; Send player (LoginAccepted p')]) s))).
Proof.
  intros Hp Hreg Hwf Hvalid Hacc Hhash Hfree p'.
  set (p1 := Player.set_password_hash (Some content)
               (Player.set_login_name (Some value) p)).
  set (s1 := set_heap (<[player := PlayerObj p1]> (heap s)) s).
  set (p3 := Player.set_registered true
               (Player.set_unique_id (Account.unique_id account) p1)).
  set (s3 := set_players
               (<[Account.unique_id account := player]>
                  (delete (Player.unique_id p) (players s)))
               (set_heap (<[player := PlayerObj p3]> (heap s)) s)).
  assert (heap s1 !! player = Some (PlayerObj p1)) as Hp1
    by apply lookup_insert_eq.
  assert (heap s3 !! player = Some (PlayerObj p3)) as Hp3
    by apply lookup_insert_eq.
  assert (registry_of_players s3) as Hwf3.
  { intros k l Hk. simpl in *. destruct (decide (player = l)) as [<-|Hne].
    - by rewrite lookup_insert_eq.
    - rewrite lookup_insert_ne by done.
      apply lookup_insert_Some in Hk as [[_ ?]|[_ Hk]]; [done|].
      apply lookup_delete_Some in Hk as [_ Hk]. by apply (Hwf k). }
  assert ((p ← get_player player;
           change_player_unique_id (Player.unique_id p)
             (Account.unique_id account);;
           update_player (Player.set_registered true) player) s1
          = (Ok tt, s3)) as Hrekey.
  { rewrite bind_run, (get_player_run _ _ _ Hp1), bind_run.
    rewrite (change_player_unique_id_moves s1 _ _ player) by done.
    rewrite (alter_present _ _ _ _ Hp1).
    match goal with |- update_player ?f player ?st = _ =>
      rewrite (update_player_run f player
                 (Player.set_unique_id (Account.unique_id account) p1) st)
        by (simpl; apply lookup_insert_eq)
    end.
    unfold s3, s1. snorm. by rewrite !insert_insert_eq. }
  rewrite (login_start s player p content value) by done.
  cbv zeta. fold p1. fold s1. rewrite bind_run.
  change (accounts s1) with (accounts s).
  rewrite Hacc, Hhash, bool_decide_true by done.
  rewrite Hrekey, (login_finish s3 player p3 value Hp3 Hwf3).
  cbn [Player.registered Player.set_registered p3 choose_display_name].
  rewrite slice_to_all by (by apply validate_username_None_bounds).
  cbv zeta. unfold s3. snorm. by rewrite insert_insert_eq.
Qed.

(** X8.  A login attempt with a valid name that is not authenticated (no
    account of that name, or an account with another password hash) is not
    rejected: the player keeps its [unique_id] and its [registered] flag, its
    [login_name] and [password_hash] hold the values sent, it gets the
    display name that [choose_display_name] picks against the display names
    of the connected players, is loaded, sent the success response and put
    into [AuthenticatedState]; the registries do not change.  For a player
    that is not registered that name is none of the names in use.  When
    [choose_display_name] fails, the attempt fails with its error, with the
    name and the hash stored. *)
Theorem guest_login (s : LoginServer) (player : loc) (p : Player.t)
    (content : bytes) (value : str) :
  heap s !! player = Some (PlayerObj p) →
  registry_of_players s →
  validate_username value = None →
  (∀ account, accounts_get (accounts s) value = Some account →
              Account.password_hash account ≠ Some content) →
  let request := a003a (Some content) (Some value) in
  let named (display_name : option str) (state : PlayerState) :=
    Player.mk (Player.unique_id p) (Some value) (Some content) display_name
      (Player.registered p) (Player.team p) (Player.game_server p)
      (Player.last_received_seq p) state in
  (∀ display_name,
     choose_display_name value (Player.registered p) (display_names_of s)
       max_name_length = Ok display_name →
     ∃ s',
       handle_login_request player request s = (Ok tt, s')
       ∧ s' = set_heap
                (<[player := PlayerObj
                                (named (Some display_name)
                                   AuthenticatedState)]> (heap s))
                (set_trace
                   (trace s ++
                      [Load player;
                       Send player
                         (LoginAccepted
                            (named (Some display_name) (Player.state p)))])
                   s)
       ∧ Player.login_name <$> player_of s' player = Some (Some value)
       ∧ Player.password_hash <$> player_of s' player = Some (Some content)
       ∧ Player.display_name <$> player_of s' player
         = Some (Some display_name)
       ∧ Player.state <$> player_of s' player = Some AuthenticatedState
       ∧ Player.unique_id <$> player_of s' player
         = Some (Player.unique_id p)
       ∧ Player.registered <$> player_of s' player
         = Some (Player.registered p)
       ∧ (Player.registered p = false → display_name ∉ display_names_of s))
  ∧ (∀ e,
       choose_display_name value (Player.registered p) (display_names_of s)
         max_name_length = Raise e →
       handle_login_request player request s
       = (Raise e,
          set_heap
            (<[player := PlayerObj
                            (named (Player.display_name p) (Player.state p))]>
               (heap s)) s)).
Proof.
  intros Hp Hwf Hvalid Hacc request named.
  pose proof (guest_login_run s player p content value Hp Hwf Hvalid Hacc)
    as Hrun.
  cbv zeta in Hrun. destruct Hrun as [Hok Hfail]. split.
  - intros display_name Hname. destruct (Hok display_name Hname) as [Hrun Hfree].
    eexists. split; [exact Hrun|]. split; [reflexivity|].
    unfold player_of. cbn [heap set_heap set_trace].
    rewrite lookup_insert_eq. cbn [fmap option_fmap option_map].
    repeat (split; [reflexivity|]). exact Hfree.
  - intros e Hname. exact (Hfail e Hname).
Qed.

(** X9.  A login attempt with a valid name and the password hash of the
    account of that name, by a player registered under its own [unique_id],
    when the account's [unique_id] is not a key of the player registry: the
    player is moved to the key of the account and takes its [unique_id], is
    marked registered, gets its login name as display name whatever names
    are in use, is loaded, sent the success response and put into
    [AuthenticatedState]. *)
Theorem registered_login (s : LoginServer) (player : loc) (p : Player.t)
    (content : bytes) (value : str) (account : Account.t) :
  heap s !! player = Some (PlayerObj p) →
  players s !! Player.unique_id p = Some player →
  registry_of_players s →
  validate_username value = None →
  accounts_get (accounts s) value = Some account →
  Account.password_hash account = Some content →
  players s !! Account.unique_id account = None →
  let logged_in (state : PlayerState) :=
    Player.mk (Account.unique_id account) (Some value) (Some content)
      (Some value) true (Player.team p) (Player.game_server p)
      (Player.last_received_seq p) state in
  ∃ s',
    handle_login_request player (a003a (Some content) (Some value)) s
    = (Ok tt, s')
    ∧ s' = set_players
             (<[Account.unique_id account := player]>
                (delete (Player.unique_id p) (players s)))
             (set_heap
                (<[player := PlayerObj (logged_in AuthenticatedState)]>
                   (heap s))
                (set_trace
                   (trace s ++
                      [Load player;
                       Send player
                         (LoginAccepted (logged_in (Player.state p)))]) s))
    ∧ players s' !! Account.unique_id account = Some player
    ∧ (Account.unique_id account ≠ Player.unique_id p →
       players s' !! Player.unique_id p = None)
    ∧ Player.unique_id <$> player_of s' player
      = Some (Account.unique_id account)
    ∧ Player.registered <$> player_of s' player = Some true
    ∧ Player.display_name <$> player_of s' player = Some (Some value)
    ∧ Player.state <$> player_of s' player = Some AuthenticatedState.
Proof.
  intros Hp Hreg Hwf Hvalid Hacc Hhash Hfree logged_in.
  pose proof (registered_login_run s player p content value account Hp Hreg
                Hwf Hvalid Hacc Hhash Hfree) as Hrun.
  cbv zeta in Hrun.
  eexists. split; [exact Hrun|]. split; [reflexivity|].
  cbn [players set_players].
  split; [apply lookup_insert_eq|].
  split; [intros Hne; by rewrite lookup_insert_ne, lookup_delete_eq|].
  unfold player_of. cbn [heap set_heap set_trace set_players].
  rewrite lookup_insert_eq. cbn [fmap option_fmap option_map].
  repeat (split; [reflexivity|]). reflexivity.
Qed.

(** ** More on display names *)

Lemma fmt_02d_length (k : Z) : 0 ≤ k ≤ 99 → length (fmt_02d k) = 2%nat.
Proof.
  intros Hk.
  assert (forallb (λ n, (length (fmt_02d (Z.of_nat n)) =? 2)%nat) (seq 0 100)
          = true) as Hall by (by vm_compute).
  rewrite forallb_true_iff in Hall.
  specialize (Hall (Z.to_nat k)). rewrite Z2Nat.id in Hall by lia.
  apply Nat.eqb_eq, Hall, elem_of_seq. lia.
Qed.

Lemma candidate_prefix (base : str) (k : Z) :
  candidate base k = candidate [] k ++ base.
Proof.
  unfold candidate. destruct (k <? 2); rewrite app_nil_r; [done|].
  by rewrite <- !app_assoc.
Qed.

Lemma candidate_prefix_length (k : Z) :
  1 ≤ k ≤ 98 → length (candidate [] k) = 6%nat.
Proof.
  intros Hk. unfold candidate. destruct (k <? 2) eqn:E; [done|].
  apply Z.ltb_ge in E. rewrite !length_app, fmt_02d_length by lia. done.
Qed.

Lemma candidate_length (base : str) (k : Z) :
  1 ≤ k ≤ 98 → length (candidate base k) = (6 + length base)%nat.
Proof.
  intros Hk. by rewrite candidate_prefix, length_app, candidate_prefix_length.
Qed.

Lemma candidate_inj (base : str) (j k : Z) :
  1 ≤ j ≤ 98 → 1 ≤ k ≤ 98 → candidate base j = candidate base k → j = k.
Proof.
  intros Hj Hk. rewrite (candidate_prefix base j), (candidate_prefix base k).
  intros Heq%app_inv_tail.
  assert (forallb
            (λ a, forallb
                    (λ b, if bool_decide (candidate [] (Z.of_nat a)
                                          = candidate [] (Z.of_nat b))
                          then (a =? b)%nat else true)
                    (seq 1 98))
            (seq 1 98) = true) as Hall by (by vm_compute).
  rewrite forallb_true_iff in Hall.
  specialize (Hall (Z.to_nat j) ltac:(apply elem_of_seq; lia)).
  rewrite forallb_true_iff in Hall.
  specialize (Hall (Z.to_nat k) ltac:(apply elem_of_seq; lia)).
  rewrite !Z2Nat.id, bool_decide_true in Hall by (lia || done).
  apply Nat.eqb_eq in Hall. lia.
Qed.

Lemma slice_to_length (s : str) (n : Z) : 0 ≤ n → len (slice_to s n) ≤ n.
Proof.
  intros Hn. rewrite slice_to_nonneg by done. unfold len.
  rewrite length_take. lia.
Qed.

(** X10.  A display name that [choose_display_name] returns has at most
    [max_name_length] characters: for a registered account when the bound is
    not negative, for an unregistered one when the bound leaves room for the
    six characters of the prefix. *)
Theorem choose_display_name_length (login_name : str) (registered : bool)
    (names_in_use : list str) (max_name_length : Z) (display_name : str) :
  choose_display_name login_name registered names_in_use max_name_length
    = Ok display_name →
  (if registered then 0 else 6) ≤ max_name_length →
  len display_name ≤ max_name_length.
Proof.
  intros Hname Hmax. unfold choose_display_name in Hname.
  destruct registered.
  - injection Hname as <-. by apply slice_to_length.
  - change (len (lit "unvrf-")) with 6 in Hname.
    set (base := slice_to login_name (max_name_length - 6)) in *.
    change (lit "unvrf-" ++ base) with (candidate base (2 - 1)) in Hname.
    destruct (name_loop_outcome base names_in_use (Z.to_nat (99 - 2)) 2)
      as [(k & Hk & Hr & _)|[Hr _]]; [lia|done| |congruence].
    rewrite Hr in Hname. injection Hname as <-.
    pose proof (slice_to_length login_name (max_name_length - 6)) as Hbase.
    unfold len in *. rewrite candidate_length by lia. fold base in Hbase. lia.
Qed.

(** X11.  The names that unregistered players with the same login name get
    are pairwise different: the 98 candidates ["unvrf-"], ["unv02-"], ...,
    ["unv98-"] of a base name differ from each other.  When exactly the first
    [n] of them are in use, the next login gets candidate [n + 1], for [n]
    up to 97; when all 98 are in use it fails with the assertion error. *)
Theorem guest_names_distinct (login_name : str) (max_name_length : Z)
    (n : nat) :
  let base := slice_to login_name (max_name_length - 6) in
  let taken := map (λ j, candidate base (Z.of_nat j)) (seq 1 n) in
  (∀ j k, 1 ≤ j ≤ 98 → 1 ≤ k ≤ 98 →
          candidate base j = candidate base k → j = k)
  ∧ ((n < 98)%nat →
     choose_display_name login_name false taken max_name_length
     = Ok (candidate base (Z.of_nat (S n))))
  ∧ (n = 98%nat →
     choose_display_name login_name false taken max_name_length
     = Raise AssertionError).
Proof.
  intros base taken. split; [apply candidate_inj|].
  assert (∀ k, 1 ≤ k ≤ Z.of_nat n → candidate base k ∈ taken) as Htaken.
  { intros k Hk. apply list_elem_of_fmap. exists (Z.to_nat k).
    split; [by rewrite Z2Nat.id by lia|]. apply elem_of_seq. lia. }
  assert (∀ k, 1 ≤ k ≤ 98 → (n < 98)%nat → candidate base k ∈ taken →
               k ≤ Z.of_nat n) as Hin.
  { intros k Hk Hn (j & Heq & Hj%elem_of_seq)%list_elem_of_fmap.
    apply candidate_inj in Heq; lia. }
  assert (choose_display_name login_name false taken max_name_length
          = name_loop base taken (candidate base (2 - 1)) 2) as Hcall
    by reflexivity.
  rewrite Hcall.
  destruct (name_loop_outcome base taken (Z.to_nat (99 - 2)) 2)
    as [(k & Hk & Hr & Hfree & Hused)|[Hr Hused]]; [lia|done| |].
  - assert (Z.of_nat n < k) as Hlow.
    { destruct (decide (Z.of_nat n < k)); [done|].
      exfalso. apply Hfree, Htaken. lia. }
    split.
    + intros Hn. rewrite Hr. do 2 f_equal.
      destruct (decide (k = Z.of_nat (S n))) as [->|Hne]; [done|].
      exfalso. pose proof (Hin (Z.of_nat (S n)) ltac:(lia) Hn
                             (Hused (Z.of_nat (S n)) ltac:(lia))). lia.
    + intros ->. lia.
  - split; [|done]. intros Hn. exfalso.
    pose proof (Hin (Z.of_nat (S n)) ltac:(lia) Hn (Hused (Z.of_nat (S n)) ltac:(lia))).
    lia.
Qed.

(** ** Lookups *)

Lemma first_server_with_outcome (field : GameServer.t → Z) (wanted : Z)
    (s : LoginServer) (values : list loc) :
  (∀ l, l ∈ values → is_game_server_obj (heap s !! l) = true) →
  match first_server_with field values wanted s with
  | (Ok l, s') =>
      s' = s ∧ l ∈ values
      ∧ ∃ g, heap s !! l = Some (GameServerObj g) ∧ field g = wanted
  | (Raise e, s') =>
      s' = s ∧ e = ProtocolViolationError
      ∧ ∀ l g, l ∈ values → heap s !! l = Some (GameServerObj g) →
               field g ≠ wanted
  end.
Proof.
  induction values as [|l values IH]; intros Hwf.
  - simpl. repeat split. by intros l g Hl%elem_of_nil.
  - cbn [first_server_with]. rewrite bind_run.
    pose proof (Hwf l ltac:(by left)) as Hl.
    destruct (heap s !! l) as [[|g|]|] eqn:Hobj; try done.
    rewrite (get_game_server_run _ _ _ Hobj).
    case_bool_decide as Hfield.
    + split; [done|]. split; [by left|]. eauto.
    + specialize (IH ltac:(intros l' Hl'; apply Hwf; by right)).
      destruct (first_server_with field values wanted s) as [[found|e] s'].
      * destruct IH as (-> & Hin & Hfound). split; [done|].
        split; [by right|done].
      * destruct IH as (-> & -> & Hnone). repeat split.
        intros l' g' [->|Hin]%elem_of_cons Hobj'.
        -- rewrite Hobj in Hobj'. by injection Hobj' as <-.
        -- by apply (Hnone l' g').
Qed.

Lemma game_server_values_elem (s : LoginServer) (l : loc) :
  l ∈ game_server_values s ↔ ∃ k, game_servers s !! k = Some l.
Proof.
  unfold game_server_values. rewrite list_elem_of_fmap. split.
  - intros ([k l'] & -> & Hin%elem_of_map_to_list). by exists k.
  - intros [k Hk]. exists (k, l). split; [done|].
    by apply elem_of_map_to_list.
Qed.

Lemma player_values_elem (s : LoginServer) (l : loc) :
  l ∈ player_values s ↔ ∃ k, players s !! k = Some l.
Proof.
  unfold player_values. rewrite list_elem_of_fmap. split.
  - intros ([k l'] & -> & Hin%elem_of_map_to_list). by exists k.
  - intros [k Hk]. exists (k, l). split; [done|].
    by apply elem_of_map_to_list.
Qed.

Lemma first_server_with_lookup (field : GameServer.t → Z) (wanted : Z)
    (s : LoginServer) (values : list loc) :
  (∀ l, l ∈ values ↔ ∃ k, game_servers s !! k = Some l) →
  registry_of_game_servers s →
  lookup_outcome s field wanted (first_server_with field values wanted s).
Proof.
  intros Hvalues Hwf.
  pose proof (first_server_with_outcome field wanted s values) as Hout.
  destruct (first_server_with field values wanted s) as [[l|e] s'];
    simpl in *.
  - destruct Hout as (-> & Hin & Hfound).
    { intros l' [k Hk]%Hvalues. by apply (Hwf k). }
    split; [done|]. split; [by apply Hvalues|done].
  - destruct Hout as (-> & -> & Hnone).
    { intros l' [k Hk]%Hvalues. by apply (Hwf k). }
    repeat split. intros k l g Hk Hobj. apply (Hnone l g); [|done].
    apply Hvalues. by exists k.
Qed.

Lemma find_server_lookup (s : LoginServer) (wanted : Z) :
  registry_of_game_servers s →
  lookup_outcome s GameServer.server_id wanted (find_server_by_id wanted s)
  ∧ lookup_outcome s GameServer.match_id wanted
      (find_server_by_match_id wanted s).
Proof.
  intros Hwf. split.
  - unfold find_server_by_id. rewrite bind_run, get_run.
    apply first_server_with_lookup; [apply game_server_values_elem|done].
  - unfold find_server_by_match_id. rewrite bind_run, get_run.
    apply first_server_with_lookup; [apply game_server_values_elem|done].
Qed.

(** X12.  With a game-server registry of game server objects,
    [find_server_by_id] and [find_server_by_match_id] return a registered
    game server whose [server_id], resp. [match_id], is the one asked for, or
    raise [ProtocolViolationError] when no registered game server has it (so
    on an empty registry), and leave the state as it is.  This holds for
    every order in which the registry gives its values. *)
Theorem find_server_outcome (s : LoginServer) (wanted : Z) :
  registry_of_game_servers s →
  (∀ values field,
     (∀ l, l ∈ values ↔ ∃ k, game_servers s !! k = Some l) →
     lookup_outcome s field wanted (first_server_with field values wanted s))
  ∧ lookup_outcome s GameServer.server_id wanted (find_server_by_id wanted s)
  ∧ lookup_outcome s GameServer.match_id wanted
      (find_server_by_match_id wanted s).
Proof.
  intros Hwf. split.
  - intros values field Hvalues. by apply first_server_with_lookup.
  - by apply find_server_lookup.
Qed.

Lemma game_servers_consistent_objects (s : LoginServer) :
  game_servers_consistent s → registry_of_game_servers s.
Proof.
  intros Hs k l Hk. specialize (Hs k l Hk). simpl in *.
  unfold keyed_game_server in Hs. by destruct (heap s !! l) as [[| |]|].
Qed.

Lemma lookup_outcome_by_key (s : LoginServer) (field : GameServer.t → Z)
    (wanted k : Z) (r : result loc * LoginServer) :
  registry_of_game_servers s →
  (∀ k' l g, game_servers s !! k' = Some l →
             heap s !! l = Some (GameServerObj g) →
             field g = wanted ↔ k' = k) →
  lookup_outcome s field wanted r →
  (∀ l, game_servers s !! k = Some l → r = (Ok l, s))
  ∧ (game_servers s !! k = None → r = (Raise ProtocolViolationError, s)).
Proof.
  intros Hwf Hfield Hout. destruct r as [[l'|e] s']; simpl in Hout.
  - destruct Hout as (-> & [k' Hk'] & g & Hobj & Hg).
    apply (Hfield k' l' g Hk' Hobj) in Hg as ->.
    split; [intros l Hl; congruence|intros Hnone; congruence].
  - destruct Hout as (-> & -> & Hnone). split; [|done]. intros l Hl.
    pose proof (Hwf k l Hl) as Hobj. simpl in Hobj.
    destruct (heap s !! l) as [[|g|]|] eqn:Hg; try done.
    exfalso. apply (Hnone k l g Hl Hg). by apply (Hfield k l g Hl Hg).
Qed.

(** X13.  When every key of the game-server registry leads to a game server
    whose [server_id] is the key and whose [match_id] is the key plus
    10000000, the two lookups are lookups by key: for a key [k] with game
    server [l], [find_server_by_id(k)] and
    [find_server_by_match_id(k + 10000000)] return [l]; for an integer [k]
    that is not a key both raise [ProtocolViolationError]. *)
Theorem find_server_by_key (s : LoginServer) (k : Z) :
  game_servers_consistent s →
  (∀ l, game_servers s !! k = Some l →
        find_server_by_id k s = (Ok l, s)
        ∧ find_server_by_match_id (k + 10000000) s = (Ok l, s))
  ∧ (game_servers s !! k = None →
     find_server_by_id k s = (Raise ProtocolViolationError, s)
     ∧ find_server_by_match_id (k + 10000000) s
       = (Raise ProtocolViolationError, s)).
Proof.
  intros Hs.
  pose proof (game_servers_consistent_objects s Hs) as Hwf.
  assert (∀ k' l' g, game_servers s !! k' = Some l' →
                     heap s !! l' = Some (GameServerObj g) →
                     GameServer.server_id g = k'
                     ∧ GameServer.match_id g = k' + 10000000) as Hkeys.
  { intros k' l' g Hk' Hobj. specialize (Hs k' l' Hk'). simpl in Hs.
    unfold keyed_game_server in Hs. rewrite Hobj in Hs.
    apply andb_true_iff in Hs as [?%bool_decide_eq_true ?%bool_decide_eq_true].
    done. }
  destruct (find_server_lookup s k Hwf) as [Hid _].
  destruct (find_server_lookup s (k + 10000000) Hwf) as [_ Hmatch].
  apply (lookup_outcome_by_key s _ k k) in Hid as [Hid_some Hid_none];
    [|done|].
  2: { intros k' l g Hk' Hobj. destruct (Hkeys k' l g Hk' Hobj). lia. }
  apply (lookup_outcome_by_key s _ (k + 10000000) k) in Hmatch
    as [Hmatch_some Hmatch_none]; [|done|].
  2: { intros k' l g Hk' Hobj. destruct (Hkeys k' l g Hk' Hobj). lia. }
  split; [intros l Hl|intros Hnone]; split; auto.
Qed.

Section DisplayNameLookup.
Variable lower : str → str.

Lemma matching_players_named (s : LoginServer) (display_name : str)
    (values : list loc) :
  (∀ l, l ∈ values → is_player_obj (heap s !! l) = true) →
  (∀ l, l ∈ values → ¬ nameless s l) →
  matching_players lower values display_name s
  = (Ok (filter (λ l, name_matches lower s display_name l = true) values), s).
Proof.
  induction values as [|l values IH]; intros Hwf Hnamed; [done|].
  cbn [matching_players]. rewrite bind_run.
  pose proof (Hwf l ltac:(by left)) as Hl.
  destruct (heap s !! l) as [[p| |]|] eqn:Hobj; try done.
  rewrite (get_player_run _ _ _ Hobj).
  destruct (Player.display_name p) as [name|] eqn:Hname.
  2: { exfalso. apply (Hnamed l); [by left|]. by exists p. }
  rewrite bind_run, IH
    by (intros l' Hl'; (apply Hwf || apply Hnamed); by right).
  assert (name_matches lower s display_name l
          = bool_decide (lower name = lower display_name)) as Hm
    by (unfold name_matches; by rewrite Hobj, Hname).
  rewrite filter_cons, Hm. by case_bool_decide; case_decide.
Qed.

Lemma matching_players_nameless (s : LoginServer) (display_name : str)
    (values : list loc) :
  (∀ l, l ∈ values → is_player_obj (heap s !! l) = true) →
  (∃ l, l ∈ values ∧ nameless s l) →
  matching_players lower values display_name s = (Raise AttributeError, s).
Proof.
  induction values as [|l values IH]; intros Hwf (l0 & Hin & Hnameless).
  { by apply elem_of_nil in Hin. }
  cbn [matching_players]. rewrite bind_run.
  pose proof (Hwf l ltac:(by left)) as Hl.
  destruct (heap s !! l) as [[p| |]|] eqn:Hobj; try done.
  rewrite (get_player_run _ _ _ Hobj).
  destruct (Player.display_name p) as [name|] eqn:Hname; [|done].
  rewrite bind_run, IH; [done|intros l' Hl'; apply Hwf; by right|].
  exists l0. split; [|done]. apply elem_of_cons in Hin as [->|Hin]; [|done].
  destruct Hnameless as (p' & Hobj' & Hname'). congruence.
Qed.

(** X14.  With a player registry of player objects,
    [find_player_by_display_name] raises [AttributeError] as soon as one
    connected player has no display name (a player that has not logged in).
    When all connected players have one, it returns a connected player whose
    display name equals the given one after lowering both, or [None] when no
    connected player has such a name (so on an empty registry); the state is
    left as it is. *)
Theorem find_player_by_display_name_outcome (s : LoginServer)
    (display_name : str) :
  registry_of_players s →
  ((∃ k l, players s !! k = Some l ∧ nameless s l) →
   find_player_by_display_name lower display_name s
   = (Raise AttributeError, s))
  ∧ ((∀ k l, players s !! k = Some l → ¬ nameless s l) →
     ∃ r,
       find_player_by_display_name lower display_name s = (Ok r, s)
       ∧ (∀ l, r = Some l →
               (∃ k, players s !! k = Some l)
               ∧ name_matches lower s display_name l = true)
       ∧ (r = None →
          ∀ k l, players s !! k = Some l →
                 name_matches lower s display_name l = false)).
Proof.
  intros Hwf.
  assert (∀ l, l ∈ player_values s → is_player_obj (heap s !! l) = true)
    as Hvalues.
  { intros l [k Hk]%player_values_elem. by apply (Hwf k). }
  unfold find_player_by_display_name. rewrite bind_run, get_run. split.
  - intros (k & l & Hk & Hnameless).
    rewrite bind_run, matching_players_nameless; [done..|].
    exists l. split; [|done]. apply player_values_elem. by exists k.
  - intros Hnamed. rewrite bind_run, matching_players_named; [|done|].
    2: { intros l [k Hk]%player_values_elem. by apply (Hnamed k). }
    eexists. split; [done|]. split.
    + intros l Hhead. apply head_Some_elem_of in Hhead.
      apply list_elem_of_filter in Hhead as [Hmatch Hin].
      split; [by apply player_values_elem|done].
    + intros Hhead k l Hk. apply head_None in Hhead.
      destruct (name_matches lower s display_name l) eqn:Hmatch; [|done].
      exfalso. assert (l ∈ filter
                         (λ l, name_matches lower s display_name l = true)
                         (player_values s)) as Hin.
      { apply list_elem_of_filter. split; [done|].
        apply player_values_elem. by exists k. }
      rewrite Hhead in Hin. by apply elem_of_nil in Hin.
Qed.

End DisplayNameLookup.

(** X15.  [change_player_unique_id(old_id, new_id)] with an [old_id] that is
    not a key of the player registry fails and changes nothing: with
    [AlreadyLoggedInError] when [new_id] is a key, tested first, and with the
    assertion error when [new_id] is free. *)
Theorem change_player_unique_id_absent (s : LoginServer) (old_id new_id : Z) :
  players s !! old_id = None →
  (is_Some (players s !! new_id) →
   change_player_unique_id old_id new_id s = (Raise AlreadyLoggedInError, s))
  ∧ (players s !! new_id = None →
     change_player_unique_id old_id new_id s = (Raise AssertionError, s)).
Proof.
  intros Hold. split.
  - apply change_player_unique_id_collision.
  - intros Hnew. by apply change_player_unique_id_missing.
Qed.

End Properties.

(** ** The properties on the example states *)

#[local] Existing Instance example_col.

Lemma dispatcher_isolation_witness :
  (@dispatch example_env example_col
     (mkMessage (Some 9%positive) PeerConnectedMessage)
     (set_trace [Log Info LogServerStarted; ResetFirewall] two_players)
   = (Ok tt,
      set_trace
        [Log Info LogServerStarted; ResetFirewall;
         Log Error LogDispatchException;
         Disconnect 9%positive (Some AssertionError)] two_players))
  ∧ (@run example_env example_col
       [mkMessage None PeerConnectedMessage;
        mkMessage (Some 9%positive) PeerConnectedMessage] two_players
     = (Raise AttributeError,
        set_trace [Log Info LogServerStarted; ResetFirewall] two_players)).
Proof.
  set (s1 := set_trace [Log Info LogServerStarted; ResetFirewall] two_players).
  assert (@run example_env example_col [] two_players = (Ok tt, s1)) as Hpre
    by reflexivity.
  split.
  - pose (message := mkMessage (Some 9%positive) PeerConnectedMessage).
    assert (@message_handlers example_env example_col (body message)
            = Some handle_client_connected_message) as Hh by reflexivity.
    assert (handle_client_connected_message message s1
            = (Raise AssertionError, s1)) as Hr by reflexivity.
    exact (proj1 (proj1 (@dispatcher_isolation example_env example_col
                           [] [] message _ two_players s1 s1 AssertionError
                           Hpre Hh Hr) 9%positive eq_refl)).
  - pose (message := mkMessage None PeerConnectedMessage).
    assert (@message_handlers example_env example_col (body message)
            = Some handle_client_connected_message) as Hh by reflexivity.
    assert (handle_client_connected_message message s1
            = (Raise AttributeError, s1)) as Hr by reflexivity.
    exact (proj2 (proj2 (@dispatcher_isolation example_env example_col
                           [] [mkMessage (Some 9%positive) PeerConnectedMessage]
                           message _ two_players s1 s1 AttributeError
                           Hpre Hh Hr) eq_refl)).
Defined.

Lemma change_player_unique_id_rekeys_witness :
  (∃ s', @change_player_unique_id example_env 10000000 7 two_players
         = (Ok tt, s')
         ∧ players s' !! 7 = Some 2%positive
         ∧ players s' !! 10000000 = None
         ∧ Player.unique_id <$> player_of two_players 2%positive
           = Some 10000000
         ∧ Player.unique_id <$> player_of s' 2%positive = Some 7)
  ∧ @change_player_unique_id example_env 10000000 5 two_players
    = (Raise AlreadyLoggedInError, two_players).
Proof.
  assert (players two_players !! 10000000 = Some 2%positive) as Hold
    by reflexivity.
  assert (players two_players !! 7 = None) as Hfree by reflexivity.
  assert (is_Some (players two_players !! 5)) as Htaken
    by (exists 1%positive; reflexivity).
  split.
  - destruct (proj1 (@change_player_unique_id_rekeys example_env two_players
                       10000000 7 2%positive Hold) Hfree)
      as (s' & Hrun & Hnew & Hgone & Hobj & _).
    assert (heap two_players !! 2%positive
            = Some (PlayerObj connecting_player)) as Hp by reflexivity.
    exists s'.
    exact (conj Hrun (conj Hnew (conj Hgone
             (conj eq_refl (proj2 (Hobj connecting_player Hp)))))).
  - exact (proj2 (@change_player_unique_id_rekeys example_env two_players
                    10000000 5 2%positive Hold) Htaken).
Defined.



Lemma choose_display_name_terminates_witness :
  let base := slice_to (lit "Alice") (15 - 6) in
  (∃ k, (1 ≤ k ≤ 98)
        ∧ choose_display_name (lit "Alice") false [lit "unvrf-Alice"] 15
          = Ok (candidate base k)
        ∧ (candidate base k ∉ [lit "unvrf-Alice"])
        ∧ ∀ j, 1 ≤ j < k → candidate base j ∈ [lit "unvrf-Alice"])
  ∨ (choose_display_name (lit "Alice") false [lit "unvrf-Alice"] 15
       = Raise AssertionError
     ∧ ∀ j, 1 ≤ j ≤ 98 → candidate base j ∈ [lit "unvrf-Alice"]).
Proof.
  exact (choose_display_name_terminates (lit "Alice") [lit "unvrf-Alice"] 15).
Defined.



Lemma game_server_id_allocation_witness :
  (∃ server_id s',
     @handle_client_connected_message example_env
       (mkMessage (Some 3%positive) PeerConnectedMessage) two_players
     = (Ok tt, s')
     ∧ 1 ≤ server_id
     ∧ server_id_of s' 3%positive = Some server_id
     ∧ match_id_of s' 3%positive = Some (server_id + 10000000))
  ∧ (∃ s',
       @handle_client_disconnected_message example_env
         (mkMessage (Some 3%positive) PeerDisconnectedMessage) two_players
       = (Ok tt, s')
       ∧ game_servers s' = delete 1 (game_servers two_players)
       ∧ first_unused_number_above (dom (game_servers s')) 1 ≤ 1).
Proof.
  pose (g := GameServer.mk 1 10000001 None 0 0 0).
  assert (heap two_players !! 3%positive = Some (GameServerObj g)) as Hl
    by reflexivity.
  assert (game_servers two_players !! GameServer.server_id g
          = Some 3%positive) as Hreg by reflexivity.
  assert (1 ≤ GameServer.server_id g) as Hpos by (simpl; lia).
  pose proof (@game_server_id_allocation example_env) as (Hconn & Hdisc & _).
  split.
  - destruct (Hconn two_players 3%positive g Hl)
      as (server_id & s' & Hrun & Hmin & _ & _ & Hsid & Hmid & _).
    exists server_id, s'. exact (conj Hrun (conj Hmin (conj Hsid Hmid))).
  - destruct (Hdisc two_players 3%positive 3%positive g Hl Hreg Hpos)
      as (s' & Hrun & Hservers & Hreuse).
    exists s'. exact (conj Hrun (conj Hservers Hreuse)).
Defined.



Lemma handle_authcode_request_message_outcome_witness :
  (∃ authcode,
     length authcode = 8%nat
     ∧ @handle_authcode_request_message example_env
         (mkMessage (Some 4%positive) (AuthCodeRequestMessage (lit "Alice")))
         two_players
       = (Ok tt,
          set_trace
            [Log Info (LogAuthcodeReturned (lit "Alice") authcode);
             AddAccount (lit "Alice") authcode;
             Save;
             Send 4%positive (Text authcode)]
            (set_accounts
               (accounts_add_account (accounts two_players) (lit "Alice")
                  authcode)
               (set_rand_pos 8 two_players))))
  ∧ @handle_authcode_request_message example_env
      (mkMessage (Some 4%positive) (AuthCodeRequestMessage (lit "ab")))
      two_players
    = (Ok tt,
       set_trace
         [Log Warning
            (LogAuthcodeRefused (lit "ab")
               (lit "User name is too short, min length is 3 characters."));
          Send 4%positive
            (Text (lit "Error: User name is too short, min length is 3 characters."))]
         two_players).
Proof.
  assert (@validate_username example_env (lit "Alice") = None) as Hvalid
    by (by vm_compute).
  assert (@validate_username example_env (lit "ab")
          = Some (lit "User name is too short, min length is 3 characters."))
    as Hshort by (by vm_compute).
  split.
  - destruct (proj1 (@handle_authcode_request_message_outcome example_env
                       two_players 4%positive (lit "Alice")) Hvalid)
      as (authcode & Hlen & _ & Hrun).
    exists authcode. exact (conj Hlen Hrun).
  - exact (proj2 (@handle_authcode_request_message_outcome example_env
                    two_players 4%positive (lit "ab")) _ Hshort).
Defined.

Lemma change_player_unique_id_own_id_witness :
  @change_player_unique_id example_env 10000000 5 two_players
    = (Raise AlreadyLoggedInError, two_players)
  ∧ @change_player_unique_id example_env 5 5 two_players
    = (Raise AlreadyLoggedInError, two_players)
  ∧ ∃ s' p',
      @handle_login_request example_env 1%positive
        (a003a (Some alice_hash) (Some (lit "Alice"))) two_players
      = (Raise AlreadyLoggedInError, s')
      ∧ players s' = players two_players
      ∧ heap s' !! 1%positive = Some (PlayerObj p')
      ∧ Player.unique_id p' = 5.
Proof.
  assert (is_Some (players two_players !! 5)) as Htaken
    by (exists 1%positive; reflexivity).
  assert (players two_players !! 5 = Some 1%positive) as Hown by reflexivity.
  assert (heap two_players !! 1%positive = Some (PlayerObj logged_in_alice))
    as Hp by reflexivity.
  assert (players two_players !! Player.unique_id logged_in_alice
          = Some 1%positive) as Hreg by reflexivity.
  assert (@validate_username example_env (lit "Alice") = None) as Hvalid
    by (by vm_compute).
  assert (accounts_get (accounts two_players) (lit "Alice")
          = Some alice_account) as Hacc by (by vm_compute).
  assert (Account.password_hash alice_account = Some alice_hash) as Hhash
    by reflexivity.
  assert (Account.unique_id alice_account = Player.unique_id logged_in_alice)
    as Hid by reflexivity.
  pose proof (@change_player_unique_id_own_id example_env)
    as (Hany & Hsame & Hlogin).
  split; [exact (Hany two_players 10000000 5 Htaken)|].
  split; [exact (Hsame two_players 5 1%positive Hown)|].
  destruct (Hlogin two_players 1%positive logged_in_alice alice_hash
              (lit "Alice") alice_account Hp Hreg Hvalid Hacc Hhash Hid)
    as (s' & p' & Hrun & Hplayers & _ & Hobj & Huid & _).
  exists s', p'. exact (conj Hrun (conj Hplayers (conj Hobj Huid))).
Defined.

(** ** The further properties on the example states *)

Lemma example_col_keeps (P : @LoginServer example_env → Prop) :
  @collaborators_keep example_env example_col P.
Proof. repeat split; intros; by intros s Hs. Qed.

Lemma two_players_consistent :
  players_consistent two_players ∧ game_servers_consistent two_players
  ∧ registry_of_players two_players ∧ registry_of_game_servers two_players.
Proof.
  split; [|split; [|split]].
  - apply map_Forall_insert_2; [reflexivity|].
    by apply map_Forall_singleton.
  - by apply map_Forall_singleton.
  - apply map_Forall_insert_2; [reflexivity|].
    by apply map_Forall_singleton.
  - by apply map_Forall_singleton.
Qed.

Lemma lobby_consistent :
  players_consistent lobby ∧ game_servers_consistent lobby.
Proof.
  split.
  - apply map_Forall_insert_2; [reflexivity|].
    by apply map_Forall_singleton.
  - by apply map_Forall_singleton.
Qed.

Lemma players_stay_consistent_witness :
  let queue :=
    [mkMessage (Some 5%positive) PeerConnectedMessage;
     mkMessage (Some 5%positive)
       (LoginProtocolMessage 1 [a003a (Some [9]%N) (Some (lit "Bob"))]);
     mkMessage (Some 1%positive) PeerDisconnectedMessage] in
  players_consistent (snd (run queue lobby))
  ∧ fst (run queue lobby) = Ok tt
  ∧ players (snd (run queue lobby))
    = {[10000000 := 2%positive; 10000001 := 5%positive]}
  ∧ Player.unique_id <$> player_of (snd (run queue lobby)) 5%positive
    = Some 10000001
  ∧ Player.unique_id <$> player_of (snd (run queue lobby)) 2%positive
    = Some 10000000.
Proof.
  intros queue. split; [|by vm_compute].
  apply players_stay_consistent.
  - apply example_col_keeps.
  - apply lobby_consistent.
  - intros pre message rest s1 l Hqueue Hpre Hbody Hpeer.
    destruct pre as [|m1 [|m2 [|m3 pre]]].
    + injection Hqueue as <- <-. injection Hpre as <-.
      injection Hpeer as <-.
      apply map_Forall_insert_2; [done|]. by apply map_Forall_singleton.
    + injection Hqueue as _ <- _. discriminate Hbody.
    + injection Hqueue as _ _ <- _. discriminate Hbody.
    + destruct pre; discriminate Hqueue.
Defined.

Lemma game_servers_stay_consistent_witness :
  let queue :=
    [mkMessage (Some 6%positive) PeerConnectedMessage;
     mkMessage (Some 6%positive) (Launcher2LoginMapInfoMessage 7);
     mkMessage (Some 3%positive) PeerDisconnectedMessage] in
  game_servers_consistent (snd (run queue lobby))
  ∧ fst (run queue lobby) = Ok tt
  ∧ game_servers (snd (run queue lobby)) = {[2 := 6%positive]}
  ∧ server_id_of (snd (run queue lobby)) 6%positive = Some 2
  ∧ match_id_of (snd (run queue lobby)) 6%positive = Some 10000002.
Proof.
  intros queue. split; [|by vm_compute].
  apply game_servers_stay_consistent.
  - apply example_col_keeps.
  - apply lobby_consistent.
  - intros pre message rest s1 l Hqueue Hpre Hbody Hpeer.
    destruct pre as [|m1 [|m2 [|m3 pre]]].
    + injection Hqueue as <- <-. injection Hpre as <-.
      injection Hpeer as <-.
      by apply map_Forall_singleton.
    + injection Hqueue as _ <- _. discriminate Hbody.
    + injection Hqueue as _ _ <- _. discriminate Hbody.
    + destruct pre; discriminate Hqueue.
Defined.

Lemma player_connect_witness :
  ∃ s',
    handle_client_connected_message
      (mkMessage (Some 5%positive) PeerConnectedMessage) lobby
    = (Ok tt, s')
    ∧ players s' = <[10000001 := 5%positive]> (players lobby)
    ∧ Player.unique_id <$> player_of lobby 5%positive = Some 0
    ∧ Player.state <$> player_of lobby 5%positive = Some OfflineState
    ∧ Player.unique_id <$> player_of s' 5%positive = Some 10000001
    ∧ Player.state <$> player_of s' 5%positive = Some UnauthenticatedState.
Proof.
  assert (heap lobby !! 5%positive = Some (PlayerObj new_player))
    as Hl by reflexivity.
  destruct (player_connect lobby 5%positive new_player Hl)
    as (unique_id & s' & Hrun & Hmin & Hfree & Hbelow & Hplayers & _ & Hid
        & Hstate & _).
  assert (unique_id = 10000001) as ->.
  { destruct (decide (unique_id = 10000000)) as [->|]; [done|].
    destruct (decide (unique_id = 10000001)) as [->|]; [done|].
    destruct (Hbelow 10000001 ltac:(lia)) as [? Hsome]. done. }
  exists s'.
  exact (conj Hrun (conj Hplayers (conj eq_refl (conj eq_refl
           (conj Hid Hstate))))).
Defined.

Lemma player_disconnect_witness :
  (∃ s', handle_client_disconnected_message
           (mkMessage (Some 1%positive) PeerDisconnectedMessage) two_players
         = (Ok tt, s')
         ∧ players s' = {[10000000 := 2%positive]}
         ∧ Player.state <$> player_of two_players 1%positive
           = Some AuthenticatedState
         ∧ Player.state <$> player_of s' 1%positive = Some OfflineState)
  ∧ ∃ s1 s2,
      handle_client_disconnected_message
        (mkMessage (Some 1%positive) PeerDisconnectedMessage) one_player
      = (Raise KeyError, s1)
      ∧ Player.state <$> player_of s1 1%positive = Some OfflineState
      ∧ dispatch (mkMessage (Some 1%positive) PeerDisconnectedMessage)
          one_player
        = (Ok tt, s2)
      ∧ trace s2
        = [Disconnect 1%positive None; RemoveReceiver 1%positive;
           Log Error LogDispatchException;
           Disconnect 1%positive (Some KeyError)].
Proof.
  assert (heap two_players !! 1%positive = Some (PlayerObj logged_in_alice))
    as Hl by reflexivity.
  assert (heap one_player !! 1%positive = Some (PlayerObj logged_in_alice))
    as Hl1 by reflexivity.
  assert (is_Some (players two_players !! Player.unique_id logged_in_alice))
    as Hreg by (exists 1%positive; reflexivity).
  assert (players one_player !! Player.unique_id logged_in_alice = None)
    as Hgone by reflexivity.
  split.
  - eexists. split.
    + exact (proj1 (player_disconnect two_players 1%positive logged_in_alice Hl)
               Hreg).
    + split; [by vm_compute|]. split; by vm_compute.
  - destruct (proj2 (player_disconnect one_player 1%positive logged_in_alice
                       Hl1) Hgone) as [Hraise Hdispatch].
    eexists _, _. split; [exact Hraise|]. split; [by vm_compute|].
    split; [exact Hdispatch|]. by vm_compute.
Defined.

Lemma connect_disconnect_restores_witness :
  (∃ s',
     serve [mkMessage (Some 5%positive) PeerConnectedMessage;
            mkMessage (Some 5%positive) PeerDisconnectedMessage] lobby
     = (Ok tt, s')
     ∧ players s' = players lobby
     ∧ game_servers s' = game_servers lobby)
  ∧ ∃ s',
      serve [mkMessage (Some 9%positive) PeerConnectedMessage;
             mkMessage (Some 9%positive) PeerDisconnectedMessage] lobby
      = (Ok tt, s')
      ∧ players s' = players lobby
      ∧ game_servers s' = game_servers lobby.
Proof.
  exact (conj (connect_disconnect_restores lobby 5%positive)
              (connect_disconnect_restores lobby 9%positive)).
Defined.

Lemma run_survives_peers_witness :
  fst (run [mkMessage (Some 9%positive) PeerConnectedMessage;
            mkMessage (Some 2%positive)
              (LoginProtocolMessage 1 [other_request 7])] two_players)
  = Ok tt.
Proof.
  apply run_survives_peers. intros message Hin.
  apply elem_of_cons in Hin as [->|Hin]; [by split; [eexists|]|].
  apply list_elem_of_singleton in Hin as ->. by split; [eexists|].
Defined.

Lemma unknown_message_ends_run_witness :
  run [mkMessage (Some 2%positive) UnknownMessage;
       mkMessage (Some 2%positive) PeerDisconnectedMessage] two_players
  = (Raise KeyError,
     set_trace [Log Info LogServerStarted; ResetFirewall] two_players).
Proof.
  assert (run [] two_players
          = (Ok tt,
             set_trace [Log Info LogServerStarted; ResetFirewall] two_players))
    as Hpre by reflexivity.
  exact (proj2 (unknown_message_ends_run []
                  [mkMessage (Some 2%positive) PeerDisconnectedMessage]
                  (mkMessage (Some 2%positive) UnknownMessage)
                  two_players _ Hpre eq_refl)).
Defined.

Lemma guest_login_witness :
  ∃ s',
    @handle_login_request example_env 2%positive
      (a003a (Some [9]%N) (Some (lit "Alice"))) two_players
    = (Ok tt, s')
    ∧ players s' = players two_players
    ∧ (lit "unvrf-Alice" ∉ display_names_of two_players)
    ∧ Player.login_name <$> player_of s' 2%positive
      = Some (Some (lit "Alice"))
    ∧ Player.password_hash <$> player_of s' 2%positive = Some (Some [9]%N)
    ∧ Player.display_name <$> player_of s' 2%positive
      = Some (Some (lit "unvrf-Alice"))
    ∧ Player.state <$> player_of two_players 2%positive
      = Some UnauthenticatedState
    ∧ Player.state <$> player_of s' 2%positive = Some AuthenticatedState
    ∧ Player.registered <$> player_of s' 2%positive = Some false.
Proof.
  assert (heap two_players !! 2%positive = Some (PlayerObj connecting_player))
    as Hl by reflexivity.
  assert (@validate_username example_env (lit "Alice") = None)
    as Hvalid by (by vm_compute).
  assert (∀ account,
            accounts_get (accounts two_players) (lit "Alice") = Some account →
            Account.password_hash account ≠ Some [9]%N) as Hhash.
  { intros account Hacc.
    assert (accounts_get (accounts two_players) (lit "Alice")
            = Some alice_account) as Halice by (by vm_compute).
    rewrite Halice in Hacc. injection Hacc as <-. discriminate. }
  assert (choose_display_name (lit "Alice")
            (Player.registered connecting_player)
            (display_names_of two_players)
            (@max_name_length example_env)
          = Ok (lit "unvrf-Alice")) as Hname by (by vm_compute).
  pose proof (guest_login two_players 2%positive connecting_player [9]%N
                (lit "Alice") Hl (proj1 (proj2 (proj2 two_players_consistent)))
                Hvalid Hhash) as Hlogin.
  cbv zeta in Hlogin. destruct Hlogin as [Hok _].
  destruct (Hok _ Hname)
    as (s' & Hrun & Hstate & Hlogin & Hpass & Hdisplay & Hauth & _ & Hguest
        & Hfree).
  exists s'. split; [exact Hrun|].
  split; [by rewrite Hstate|]. split; [by apply Hfree|].
  split; [exact Hlogin|]. split; [exact Hpass|]. split; [exact Hdisplay|].
  split; [reflexivity|]. split; [exact Hauth|]. exact Hguest.
Defined.

Lemma registered_login_witness :
  ∃ s',
    @handle_login_request example_env 2%positive
      (a003a (Some alice_hash) (Some (lit "Alice"))) one_player
    = (Ok tt, s')
    ∧ players s' = {[5 := 2%positive]}
    ∧ Player.unique_id <$> player_of one_player 2%positive = Some 10000000
    ∧ Player.unique_id <$> player_of s' 2%positive = Some 5
    ∧ Player.registered <$> player_of s' 2%positive = Some true
    ∧ Player.display_name <$> player_of s' 2%positive
      = Some (Some (lit "Alice"))
    ∧ Player.state <$> player_of s' 2%positive = Some AuthenticatedState.
Proof.
  assert (heap one_player !! 2%positive = Some (PlayerObj connecting_player))
    as Hl by reflexivity.
  assert (players one_player !! Player.unique_id connecting_player
          = Some 2%positive) as Hreg by reflexivity.
  assert (registry_of_players one_player) as Hwf
    by (by apply map_Forall_singleton).
  assert (@validate_username example_env (lit "Alice") = None)
    as Hvalid by (by vm_compute).
  assert (accounts_get (accounts one_player) (lit "Alice")
          = Some alice_account) as Hacc by (by vm_compute).
  assert (Account.password_hash alice_account = Some alice_hash)
    as Hhash by reflexivity.
  assert (players one_player !! Account.unique_id alice_account = None)
    as Hfree by reflexivity.
  pose proof (registered_login one_player 2%positive connecting_player
                alice_hash (lit "Alice") alice_account Hl Hreg Hwf Hvalid
                Hacc Hhash Hfree) as Hlogin.
  cbv zeta in Hlogin.
  destruct Hlogin
    as (s' & Hrun & Hstate & _ & _ & Hid & Hregistered & Hdisplay & Hauth).
  exists s'. split; [exact Hrun|].
  split; [rewrite Hstate; by vm_compute|]. split; [reflexivity|].
  split; [exact Hid|]. split; [exact Hregistered|].
  split; [exact Hdisplay|]. exact Hauth.
Defined.

Lemma choose_display_name_length_witness :
  choose_display_name (lit "Bartholomew-the-Great") false
    [lit "unvrf-Bartholom"] 15
  = Ok (lit "unv02-Bartholom")
  ∧ len (lit "unv02-Bartholom") ≤ 15.
Proof.
  assert (choose_display_name (lit "Bartholomew-the-Great") false
            [lit "unvrf-Bartholom"] 15
          = Ok (lit "unv02-Bartholom")) as Hname by (by vm_compute).
  split; [exact Hname|].
  apply (choose_display_name_length _ _ _ _ _ Hname). simpl. lia.
Defined.

Lemma guest_names_distinct_witness :
  choose_display_name (lit "Alice") false
    [lit "unvrf-Alice"; lit "unv02-Alice"] 15
  = Ok (lit "unv03-Alice")
  ∧ choose_display_name (lit "Alice") false
      (map (λ j, candidate (lit "Alice") (Z.of_nat j)) (seq 1 98)) 15
    = Raise AssertionError.
Proof.
  split.
  - exact (proj1 (proj2 (guest_names_distinct (lit "Alice") 15 2))
             ltac:(lia)).
  - exact (proj2 (proj2 (guest_names_distinct (lit "Alice") 15 98))
             eq_refl).
Defined.

Lemma find_server_outcome_witness :
  lookup_outcome two_players GameServer.server_id 1
    (find_server_by_id 1 two_players)
  ∧ lookup_outcome two_players GameServer.match_id 7
      (find_server_by_match_id 7 two_players).
Proof.
  pose proof (find_server_outcome two_players 1
                (proj2 (proj2 (proj2 two_players_consistent))))
    as (_ & Hid & _).
  pose proof (find_server_outcome two_players 7
                (proj2 (proj2 (proj2 two_players_consistent))))
    as (_ & _ & Hmatch).
  exact (conj Hid Hmatch).
Defined.

Lemma find_server_by_key_witness :
  find_server_by_id 1 two_players = (Ok 3%positive, two_players)
  ∧ find_server_by_match_id 10000001 two_players
    = (Ok 3%positive, two_players)
  ∧ find_server_by_id 2 two_players
    = (Raise ProtocolViolationError, two_players).
Proof.
  pose proof (find_server_by_key two_players 1
                (proj1 (proj2 two_players_consistent))) as [Hfound _].
  pose proof (find_server_by_key two_players 2
                (proj1 (proj2 two_players_consistent))) as [_ Hmissing].
  destruct (Hfound 3%positive eq_refl) as [Hid Hmatch].
  destruct (Hmissing eq_refl) as [Hnone _].
  exact (conj Hid (conj Hmatch Hnone)).
Defined.

Lemma find_player_by_display_name_outcome_witness :
  find_player_by_display_name ascii_lower (lit "ALICE") two_players
  = (Raise AttributeError, two_players)
  ∧ ∃ r,
      find_player_by_display_name ascii_lower (lit "ALICE") only_alice
      = (Ok r, only_alice)
      ∧ (∀ l, r = Some l →
              name_matches ascii_lower only_alice (lit "ALICE") l = true).
Proof.
  split.
  - apply (find_player_by_display_name_outcome ascii_lower two_players
             (lit "ALICE")
             (proj1 (proj2 (proj2 two_players_consistent)))).
    exists 10000000, 2%positive. split; [reflexivity|].
    exists connecting_player. by split.
  - assert (registry_of_players only_alice) as Hwf
      by (by apply map_Forall_singleton).
    destruct (proj2 (find_player_by_display_name_outcome ascii_lower
                       only_alice (lit "ALICE") Hwf)) as (r & Hrun & Hsome & _).
    + intros k l Hl (p & Hp & Hname).
      change (players only_alice) with ({[5 := 1%positive]} : gmap Z loc)
        in Hl.
      apply lookup_singleton_Some in Hl as [_ <-].
      change (Some (PlayerObj logged_in_alice) = Some (PlayerObj p)) in Hp.
      injection Hp as <-. discriminate.
    + exists r. split; [exact Hrun|].
      intros l Hl. exact (proj2 (Hsome l Hl)).
Defined.

Lemma change_player_unique_id_absent_witness :
  @change_player_unique_id example_env 7 5 two_players
  = (Raise AlreadyLoggedInError, two_players)
  ∧ @change_player_unique_id example_env 7 8 two_players
    = (Raise AssertionError, two_players).
Proof.
  assert (players two_players !! 7 = None) as Hold by reflexivity.
  split.
  - apply (proj1 (change_player_unique_id_absent two_players 7 5 Hold)).
    by exists 1%positive.
  - by apply (proj2 (change_player_unique_id_absent two_players 7 8 Hold)).
Defined.
